(** * MassyTools: the analyte core ([MassyTools/bin/analyte.py])

    A shallow embedding of the [Analyte] class: resolution of the elemental
    composition from the analyte name, attachment of the mass modifiers, the
    isotopic envelope (Cartesian product, greedy merge, ranking, truncation)
    and the extraction of the spectrum window.

    Modelling conventions.
    - Python [float] values are exact rationals ([Q]); float equality is
      [Qeq].  Rounding, overflow and NaN are outside the model.
    - Python [int] values are [Z].
    - A raised exception is a value of [exn]; a method is a function into
      [result].
    - The instance attributes that the methods create with [self.x = ...]
      live in a store ([attrs], one entry per integer attribute, and the
      optional float attribute [mass]); reading an attribute that was never
      assigned raises [AttributeError].
    - Strings are ASCII. *)

From Stdlib Require Import QArith Qabs Qpower Lqa Lia ZArith List Ascii String.
From Stdlib Require Import Sorting.Permutation Sorting.Sorted.
From stdpp Require Import gmap strings list.

Open Scope Q_scope.

(** ** Exceptions and results *)

Inductive exn : Type :=
  | AttributeError (attr : string)
  | KeyError
  | IndexError
  | ValueError
  | UnboundLocalError
  | ZeroDivisionError.

Inductive result (A : Type) : Type :=
  | Ok (a : A)
  | Err (e : exn).
Arguments Ok {A} a.
Arguments Err {A} e.

Definition bind {A B : Type} (r : result A) (k : A -> result B) : result B :=
  match r with
  | Ok a => k a
  | Err e => Err e
  end.

Notation "'do' x <- r ; k" := (bind r (fun x => k))
  (at level 10, x name, r at level 100, k at level 200).


(** A [for] loop whose body may raise: the first exception ends the loop. *)
Fixpoint for_each {A S : Type} (body : S -> A -> result S) (l : list A) (s : S)
  : result S :=
  match l with
  | [] => Ok s
  | x :: l' => do s' <- body s x; for_each body l' s'
  end.

(** [enumerate(l)] *)
Fixpoint enumerate_from {A : Type} (i : nat) (l : list A) : list (nat * A) :=
  match l with
  | [] => []
  | x :: l' => (i, x) :: enumerate_from (S i) l'
  end.
Definition enumerate {A : Type} (l : list A) : list (nat * A) := enumerate_from 0 l.

(** ** Data model *)

(** One entry of the building-block table: [building_blocks[name]]. *)
Record Block : Type := mkBlock {
  block_mass : Q;
  block_carbons : Z;
  block_hydrogens : Z;
  block_nitrogens : Z;
  block_oxygens : Z;
  block_sulfurs : Z
}.

Record Settings : Type := mkSettings {
  mass_modifiers : list string;
  charge_carrier : string;
  epsilon : Q;
  min_total_contribution : Q;
  mass_window : Q
}.

(** Modelled from the spec: the class [Isotope] ([MassyTools/bin/isotope.py])
    is not part of the sources at hand; the spec describes it as holding an
    exact mass and a fraction, the two attributes the analyte assigns. *)
Record Isotope : Type := mkIsotope {
  exact_mass : Q;
  fraction : Q
}.

(** What an analyte reads from its [master]. *)
Record Master : Type := mkMaster {
  master_settings : Settings;
  master_building_blocks : gmap string Block;
  master_peak_name : string;
  mass_spectrum_data : list (Q * Q)
}.

Record Analyte : Type := mkAnalyte {
  master : Master;
  settings : Settings;
  building_blocks : gmap string Block;
  name : string;
  data_subset : option (list (Q * Q));
  isotopes : list Isotope;
  mass : option Q;
  attrs : gmap string Z
}.

(** [Analyte.__init__]: [mass] and the counters do not exist yet. *)
Definition Analyte_init (m : Master) : Analyte :=
  {| master := m;
     settings := master_settings m;
     building_blocks := master_building_blocks m;
     name := master_peak_name m;
     data_subset := None;
     isotopes := [];
     mass := None;
     attrs := ∅ |}.

Definition set_mass (a : Analyte) (m : Q) : Analyte :=
  {| master := master a; settings := settings a;
     building_blocks := building_blocks a; name := name a;
     data_subset := data_subset a; isotopes := isotopes a;
     mass := Some m; attrs := attrs a |}.

Definition setattr (a : Analyte) (k : string) (v : Z) : Analyte :=
  {| master := master a; settings := settings a;
     building_blocks := building_blocks a; name := name a;
     data_subset := data_subset a; isotopes := isotopes a;
     mass := mass a; attrs := <[k := v]> (attrs a) |}.

Definition set_isotopes (a : Analyte) (l : list Isotope) : Analyte :=
  {| master := master a; settings := settings a;
     building_blocks := building_blocks a; name := name a;
     data_subset := data_subset a; isotopes := l;
     mass := mass a; attrs := attrs a |}.

Definition set_data_subset (a : Analyte) (d : list (Q * Q)) : Analyte :=
  {| master := master a; settings := settings a;
     building_blocks := building_blocks a; name := name a;
     data_subset := Some d; isotopes := isotopes a;
     mass := mass a; attrs := attrs a |}.

Definition get_mass (a : Analyte) : result Q :=
  match mass a with
  | Some m => Ok m
  | None => Err (AttributeError "mass")
  end.

Definition getattr (a : Analyte) (k : string) : result Z :=
  match attrs a !! k with
  | Some v => Ok v
  | None => Err (AttributeError k)
  end.

(** [self.mass += rhs]: the attribute is read before [rhs] is evaluated. *)
Definition fadd (a : Analyte) (rhs : result Q) : result Analyte :=
  do m <- get_mass a; do d <- rhs; Ok (set_mass a (m + d)).

(** [self.k += rhs] for an integer attribute. *)
Definition iadd (a : Analyte) (k : string) (rhs : result Z) : result Analyte :=
  do v <- getattr a k; do d <- rhs; Ok (setattr a k (v + d)%Z).

(** [self.building_blocks[key]] *)
Definition block_of (a : Analyte) (key : string) : result Block :=
  match building_blocks a !! key with
  | Some b => Ok b
  | None => Err KeyError
  end.

(** ** Strings: [str.isalpha], [itertools.groupby], [int] *)

Definition isalpha (c : ascii) : bool :=
  let n := nat_of_ascii c in
  ((65 <=? n)%nat && (n <=? 90)%nat) || ((97 <=? n)%nat && (n <=? 122)%nat).

Definition isdigit (c : ascii) : bool :=
  let n := nat_of_ascii c in (48 <=? n)%nat && (n <=? 57)%nat.

(** The characters [int] strips from both ends of its argument. *)
Definition isspace (c : ascii) : bool :=
  let n := nat_of_ascii c in
  ((9 <=? n)%nat && (n <=? 13)%nat) || ((28 <=? n)%nat && (n <=? 32)%nat).

(** [["".join(x) for _, x in itertools.groupby(s, key=str.isalpha)]]:
    the maximal runs of characters that agree on [isalpha]. *)
Fixpoint groupby_isalpha (s : string) : list string :=
  match s with
  | EmptyString => []
  | String c s' =>
      match groupby_isalpha s' with
      | String d g :: gs =>
          if Bool.eqb (isalpha c) (isalpha d)
          then String c (String d g) :: gs
          else String c EmptyString :: String d g :: gs
      | gs => String c EmptyString :: gs
      end
  end.

Fixpoint lstrip (s : list ascii) : list ascii :=
  match s with
  | c :: s' => if isspace c then lstrip s' else s
  | [] => []
  end.

Definition strip (s : list ascii) : list ascii :=
  rev (lstrip (rev (lstrip s))).

Definition digit_value (c : ascii) : Z := Z.of_nat (nat_of_ascii c) - 48.

(** The digits of a decimal literal, most significant first; a single
    underscore may separate two digits.  [prev] tells whether the previous
    character was a digit. *)
Fixpoint digits_value (s : list ascii) (prev : bool) (acc : Z) : option Z :=
  match s with
  | [] => if prev then Some acc else None
  | c :: s' =>
      if isdigit c then digits_value s' true (10 * acc + digit_value c)%Z
      else if (Ascii.eqb c "_" && prev)%bool then digits_value s' false acc
      else None
  end.

(** [int(s)] on a string: surrounding whitespace, an optional sign, decimal
    digits.  [ValueError] otherwise. *)
Definition py_int (s : string) : result Z :=
  let body := strip (list_ascii_of_string s) in
  let signed :=
    match body with
    | c :: r =>
        if Ascii.eqb c "-" then (true, r)
        else if Ascii.eqb c "+" then (false, r)
        else (false, body)
    | [] => (false, [])
    end in
  match digits_value (snd signed) false 0 with
  | Some v => Ok (if fst signed then (- v)%Z else v)
  | None => Err ValueError
  end.

(** ** [Analyte.determine_total_number_of_elements] *)

(** [int(units[index+1])] *)
Definition unit_count (units : list string) (index : nat) : result Z :=
  match units !! (index + 1)%nat with
  | Some u => py_int u
  | None => Err IndexError
  end.

(** The body of [if unit == block:] for the matching [block]. *)
Definition add_unit (units : list string) (index : nat) (unit : string)
    (b : Block) (a : Analyte) : result Analyte :=
  do a <- fadd a (do n <- unit_count units index; Ok (block_mass b * inject_Z n));
  do a <- iadd a "number_carbons"
            (do n <- unit_count units index; Ok (block_carbons b * n)%Z);
  do a <- iadd a "number_hydrogens"
            (do n <- unit_count units index; Ok (block_hydrogens b * n)%Z);
  do a <- iadd a "number_nitrogens"
            (do n <- unit_count units index; Ok (block_nitrogens b * n)%Z);
  do a <- iadd a "number_oxygens"
            (do n <- unit_count units index; Ok (block_oxygens b * n)%Z);
  do a <- iadd a "number_sulfurs"
            (do n <- unit_count units index; Ok (block_sulfurs b * n)%Z);
  do a <- iadd a "total_number_units" (unit_count units index);
  if String.eqb unit "S"
  then iadd a "number_sialic_acids" (unit_count units index)
  else Ok a.

(** One round of [for index, unit in enumerate(units)].  The inner loop
    over [self.building_blocks.keys()] compares [unit] with every key; the
    keys of a dict are distinct, so its body runs for the entry of [unit],
    if there is one, and for no other. *)
Definition unit_step (units : list string) (a : Analyte) (iu : nat * string)
  : result Analyte :=
  match building_blocks a !! snd iu with
  | Some b => add_unit units (fst iu) (snd iu) b a
  | None => Ok a
  end.

Definition determine_total_number_of_elements (a : Analyte) : result Analyte :=
  let units := groupby_isalpha (name a) in
  for_each (unit_step units) (enumerate units) a.

(** ** [Analyte.attach_mass_modifiers] *)

Definition independent_step (a : Analyte) (modifier : string) : result Analyte :=
  if negb (String.eqb modifier "Per") then
    do a <- fadd a (do b <- block_of a modifier; Ok (block_mass b));
    do a <- iadd a "number_carbons" (do b <- block_of a modifier; Ok (block_carbons b));
    do a <- iadd a "number_hydrogens" (do b <- block_of a modifier; Ok (block_hydrogens b));
    do a <- iadd a "number_nitrogens" (do b <- block_of a modifier; Ok (block_nitrogens b));
    do a <- iadd a "number_oxygens" (do b <- block_of a modifier; Ok (block_oxygens b));
    iadd a "number_sulfurs" (do b <- block_of a modifier; Ok (block_sulfurs b))
  else Ok a.

Definition dependent_step (a : Analyte) (modifier : string) : result Analyte :=
  if String.eqb modifier "Per" then
    do o <- getattr a "number_oxygens";
    do u <- getattr a "total_number_of_units";
    do s <- getattr a "number_sialic_acids";
    let number_sites := (o - (u * 2 - 2) - 1 - (1 * s))%Z in
    do a <- iadd a "number_carbons"
              (do b <- block_of a modifier; Ok (block_carbons b * number_sites)%Z);
    do a <- iadd a "number_hydrogens"
              (do b <- block_of a modifier; Ok (block_hydrogens b * number_sites * 2)%Z);
    fadd a (do b <- block_of a modifier; Ok (block_mass b * inject_Z number_sites))
  else Ok a.

Definition attach_mass_modifiers (a : Analyte) : result Analyte :=
  let total_modifiers := mass_modifiers (settings a) ++ [charge_carrier (settings a)] in
  do a <- for_each independent_step total_modifiers a;
  for_each dependent_step total_modifiers a.

(** ** The per-element isotopologue distribution *)

(** Binomial coefficient [C(n, k)], by Pascal's rule. *)
Fixpoint choose (n k : nat) : nat :=
  match n, k with
  | _, O => 1
  | O, S _ => 0
  | S n', S k' => choose n' k' + choose n' (S k')
  end.

(** Modelled from the spec: [functions.calculate_elemental_isotopic_pattern]
    ([MassyTools/util/functions.py]) is not part of the sources at hand.  The
    spec gives, for an isotope of natural abundance [p] and mass shift [delta]
    and an atom count [n], one point per [k = 0..n]: mass shift [k * delta],
    probability [C(n,k) p^k (1-p)^(n-k)].  [element] is the one-entry list
    [(label, p, delta)] the caller passes; a negative [number] gives no point. *)
Definition calculate_elemental_isotopic_pattern
    (element : list (string * Q * Q)) (number : Z) : list (Q * Q) :=
  flat_map (fun e : string * Q * Q =>
    let p := snd (fst e) in
    let delta := snd e in
    let n := Z.to_nat number in
    map (fun k : nat =>
           (inject_Z (Z.of_nat k) * delta,
            inject_Z (Z.of_nat (choose n k))
            * p ^ Z.of_nat k * (1 - p) ^ Z.of_nat (n - k)))
        (seq 0 (Z.to_nat (number + 1))))
  element.

(** ** The merge step *)

Definition point : Type := (Q * Q)%type.

(** Equality of two [(mass, probability)] tuples, as a dict compares keys. *)
Definition point_eqb (d e : point) : bool :=
  Qeq_bool (fst d) (fst e) && Qeq_bool (snd d) (snd e).

Definition Qlt_bool (x y : Q) : bool := negb (Qle_bool y x).

(** The dict [newdata]: entries in insertion order, one per distinct key. *)
Definition dict : Type := list (point * bool).

Fixpoint dict_get (m : dict) (d : point) : option bool :=
  match m with
  | [] => None
  | (k, b) :: m' => if point_eqb k d then Some b else dict_get m' d
  end.

Fixpoint dict_set (m : dict) (d : point) (b : bool) : dict :=
  match m with
  | [] => [(d, b)]
  | (k, c) :: m' =>
      if point_eqb k d then (k, b) :: m' else (k, c) :: dict_set m' d b
  end.

(** [newdata[d]] *)
Definition flag (newdata : dict) (d : point) : result bool :=
  match dict_get newdata d with
  | Some b => Ok b
  | None => Err KeyError
  end.

(** [{d: True for d in totals}] *)
Definition all_true (totals : list point) : dict :=
  fold_left (fun m d => dict_set m d true) totals [].

(** [[d for d in totals if newdata[d]]] *)
Fixpoint unconsumed (newdata : dict) (totals : list point) : result (list point) :=
  match totals with
  | [] => Ok []
  | d :: l =>
      do b <- flag newdata d;
      do r <- unconsumed newdata l;
      Ok (if b then d :: r else r)
  end.

(** [sum(l)] *)
Definition sum (l : list Q) : Q := fold_left Qplus l 0.

(** The state of the inner loop: [keys], [values], [newdata]. *)
Definition absorb_step (eps k : Q) (st : list Q * list Q * dict) (d : point)
  : list Q * list Q * dict :=
  let '(keys, values, newdata) := st in
  if Qlt_bool (Qabs (k - fst d)) eps
  then (keys ++ [fst d * snd d], values ++ [snd d], dict_set newdata d false)
  else st.

(** One round of [for k, v in totals]; the state is [newdata] and
    [intermediate_results]. *)
Definition merge_step (eps : Q) (totals : list point)
    (st : dict * list point) (d : point) : result (dict * list point) :=
  let '(newdata, intermediate_results) := st in
  do b <- flag newdata d;
  if negb b then Ok st
  else
    let newdata := dict_set newdata d false in
    do rest <- unconsumed newdata totals;
    let '(keys, values, newdata) :=
      fold_left (absorb_step eps (fst d))
                rest ([fst d * snd d], [snd d], newdata) in
    if Qeq_bool (sum values) 0 then Err ZeroDivisionError
    else Ok (newdata, intermediate_results ++ [(sum keys / sum values, sum values)]).

Definition merge (eps : Q) (totals : list point) : result (list point) :=
  do st <- for_each (merge_step eps totals) totals (all_true totals, []);
  Ok (snd st).

(** ** Ranking and truncation *)

(** [sorted(l, key=itemgetter(1), reverse=True)]: stable, descending. *)
Fixpoint insert_desc (x : point) (l : list point) : list point :=
  match l with
  | [] => [x]
  | y :: l' => if Qlt_bool (snd x) (snd y) then y :: insert_desc x l' else x :: l
  end.
Definition sorted_by_probability_desc (l : list point) : list point :=
  fold_right insert_desc [] l.

(** [sorted(l, key=itemgetter(0))]: stable, ascending. *)
Fixpoint insert_asc (x : point) (l : list point) : list point :=
  match l with
  | [] => [x]
  | y :: l' => if Qlt_bool (fst y) (fst x) then y :: insert_asc x l' else x :: l
  end.
Definition sorted_by_mass (l : list point) : list point :=
  fold_right insert_asc [] l.

(** The loop that fills [results]; it stops at the first running total
    above [min_total_contribution]. *)
Fixpoint truncate (thr : Q) (l : list point) (results : list point) (totals : Q)
  : list point :=
  match l with
  | [] => results
  | r :: l' =>
      let results := results ++ [r] in
      let totals := totals + snd r in
      if Qlt_bool thr totals then results else truncate thr l' results totals
  end.

(** ** [Analyte.calculate_analyte_isotopic_pattern] *)

Definition C : list (string * Q * Q) := [("13C"%string, 107 # 10000, 100335 # 100000)].
Definition H : list (string * Q * Q) := [("2H"%string, 12 # 100000, 100628 # 100000)].
Definition N : list (string * Q * Q) := [("15N"%string, 364 # 100000, 99703 # 100000)].
Definition O18 : list (string * Q * Q) := [("18O"%string, 205 # 100000, 200425 # 100000)].
Definition O17 : list (string * Q * Q) := [("17O"%string, 38 # 100000, 100422 # 100000)].
Definition S33 : list (string * Q * Q) := [("33S"%string, 76 # 10000, 99939 # 100000)].
Definition S34 : list (string * Q * Q) := [("34S"%string, 429 # 10000, 19958 # 10000)].
Definition S36 : list (string * Q * Q) := [("36S"%string, 2 # 10000, 399501 # 100000)].

(** [itertools.product] of the eight distributions, the last one varying
    fastest, each tuple turned into its total mass and probability. *)
Definition combine_distributions (m : Q)
    (carbons hydrogens nitrogens oxygens17 oxygens18 sulfurs33 sulfurs34 sulfurs36
       : list (Q * Q)) : list point :=
  flat_map (fun i => flat_map (fun j => flat_map (fun k => flat_map (fun l =>
  flat_map (fun m' => flat_map (fun n => flat_map (fun o => map (fun p =>
    (m + fst i + fst j + fst k + fst l + fst m' + fst n + fst o + fst p,
     snd i * snd j * snd k * snd l * snd m' * snd n * snd o * snd p))
  sulfurs36) sulfurs34) sulfurs33) oxygens18) oxygens17) nitrogens) hydrogens)
  carbons.

Definition envelope_totals (m : Q) (nc nh nn no ns : Z) : list point :=
  combine_distributions m
    (calculate_elemental_isotopic_pattern C nc)
    (calculate_elemental_isotopic_pattern H nh)
    (calculate_elemental_isotopic_pattern N nn)
    (calculate_elemental_isotopic_pattern O17 no)
    (calculate_elemental_isotopic_pattern O18 no)
    (calculate_elemental_isotopic_pattern S33 ns)
    (calculate_elemental_isotopic_pattern S34 ns)
    (calculate_elemental_isotopic_pattern S36 ns).

(** From the combined distribution to the retained, mass-ordered clusters. *)
Definition envelope (s : Settings) (totals : list point) : result (list point) :=
  do intermediate_results <- merge (epsilon s) totals;
  let intermediate_results := sorted_by_probability_desc intermediate_results in
  let results := truncate (min_total_contribution s) intermediate_results [] 0 in
  Ok (sorted_by_mass results).

Definition to_isotope (r : point) : Isotope :=
  {| exact_mass := fst r; fraction := snd r |}.

Definition calculate_analyte_isotopic_pattern (a : Analyte) : result Analyte :=
  do nc <- getattr a "number_carbons";
  do nh <- getattr a "number_hydrogens";
  do nn <- getattr a "number_nitrogens";
  do no <- getattr a "number_oxygens";
  do ns <- getattr a "number_sulfurs";
  (* [self.mass] is read once per tuple of the product *)
  do m <- match envelope_totals 0 nc nh nn no ns with
          | [] => Ok 0
          | _ :: _ => get_mass a
          end;
  do results <- envelope (settings a) (envelope_totals m nc nh nn no ns);
  Ok (set_isotopes a (isotopes a ++ map to_isotope results)).

(** ** [Analyte.calculate_isotopes] *)

Definition reset (a : Analyte) : Analyte :=
  let a := set_mass a 0 in
  let a := setattr a "number_carbons" 0 in
  let a := setattr a "number_hydrogens" 0 in
  let a := setattr a "number_nitrogens" 0 in
  let a := setattr a "number_oxygens" 0 in
  let a := setattr a "number_sulfurs" 0 in
  let a := setattr a "number_sialic_acids" 0 in
  let a := setattr a "total_number_elements" 0 in
  setattr a "total_number_units" 0.

Definition calculate_isotopes (a : Analyte) : result Analyte :=
  do a <- determine_total_number_of_elements (reset a);
  do a <- attach_mass_modifiers a;
  calculate_analyte_isotopic_pattern a.

(** ** [bisect.bisect_left], [bisect.bisect_right] *)

(** The [while lo < hi] loop of [bisect_left]; every round shrinks
    [hi - lo], so [fuel = hi - lo] rounds are enough. *)
Fixpoint bisect_left_loop (fuel : nat) (a : list Q) (x : Q) (lo hi : nat) : nat :=
  match fuel with
  | O => lo
  | S fuel' =>
      if (lo <? hi)%nat then
        let mid := ((lo + hi) / 2)%nat in
        if Qlt_bool (nth mid a 0) x
        then bisect_left_loop fuel' a x (mid + 1) hi
        else bisect_left_loop fuel' a x lo mid
      else lo
  end.

Definition bisect_left (a : list Q) (x : Q) : nat :=
  bisect_left_loop (length a) a x 0 (length a).

Fixpoint bisect_right_loop (fuel : nat) (a : list Q) (x : Q) (lo hi : nat) : nat :=
  match fuel with
  | O => lo
  | S fuel' =>
      if (lo <? hi)%nat then
        let mid := ((lo + hi) / 2)%nat in
        if Qlt_bool x (nth mid a 0)
        then bisect_right_loop fuel' a x lo mid
        else bisect_right_loop fuel' a x (mid + 1) hi
      else lo
  end.

Definition bisect_right (a : list Q) (x : Q) : nat :=
  bisect_right_loop (length a) a x 0 (length a).

(** [l[i:j]] for [0 <= i] and [0 <= j] *)
Definition slice {A : Type} (l : list A) (i j : nat) : list A :=
  firstn (j - i) (skipn i l).

(** ** [Analyte.inherit_data_subset] *)

(** [max(isotope.fraction for isotope in self.isotopes)] *)
Definition max_of (l : list Q) : result Q :=
  match l with
  | [] => Err ValueError
  | x :: l' => Ok (fold_left (fun m y => if Qlt_bool m y then y else m) l' x)
  end.

(** The loop that sets [center_mass]: the last isotope whose fraction
    equals the maximum wins. *)
Definition find_center_mass (max_fraction : Q) (l : list Isotope) : option Q :=
  fold_left (fun c i => if Qeq_bool (fraction i) max_fraction
                        then Some (exact_mass i) else c) l None.

Definition inherit_data_subset (a : Analyte) : result Analyte :=
  let data := mass_spectrum_data (master a) in
  (* [x_data, y_data = zip( *data )] needs two tuples to unpack *)
  do xy <- match data with
           | [] => Err ValueError
           | _ :: _ => Ok (map fst data, map snd data)
           end;
  let x_data := fst xy in
  let y_data := snd xy in
  do max_fraction <- max_of (map fraction (isotopes a));
  do center_mass <- match find_center_mass max_fraction (isotopes a) with
                    | Some c => Ok c
                    | None => Err UnboundLocalError
                    end;
  let left_border := bisect_left x_data (center_mass - mass_window (settings a)) in
  let right_border := bisect_right x_data (center_mass + mass_window (settings a)) in
  Ok (set_data_subset a (combine (slice x_data left_border right_border)
                                 (slice y_data left_border right_border))).

(** ** The merge step without the dict

    [newdata] only records which points have been used.  The functions
    below keep the list [used] of the points whose flag is [False]
    instead; [merge_eq_merge_by_used] shows that [merge] computes the same
    result. *)

Definition is_used (used : list point) (d : point) : bool :=
  existsb (point_eqb d) used.

(** The points a seed of mass [k] absorbs out of [rest]. *)
Definition absorbed (eps k : Q) (rest : list point) : list point :=
  List.filter (fun e => Qlt_bool (Qabs (k - fst e)) eps) rest.

Definition cluster_keys (d : point) (members : list point) : list Q :=
  [fst d * snd d] ++ map (fun e => fst e * snd e) members.

Definition cluster_values (d : point) (members : list point) : list Q :=
  [snd d] ++ map snd members.

Definition merge_step_by_used (eps : Q) (totals : list point)
    (st : list point * list point) (d : point)
  : result (list point * list point) :=
  let '(used, intermediate_results) := st in
  if is_used used d then Ok st
  else
    let rest := List.filter (fun e => negb (is_used (d :: used) e)) totals in
    let members := absorbed eps (fst d) rest in
    let keys := cluster_keys d members in
    let values := cluster_values d members in
    if Qeq_bool (sum values) 0 then Err ZeroDivisionError
    else Ok (rev members ++ d :: used,
             intermediate_results ++ [(sum keys / sum values, sum values)]).

Definition merge_by_used (eps : Q) (totals : list point) : result (list point) :=
  do st <- for_each (merge_step_by_used eps totals) totals ([], []);
  Ok (snd st).

(** The first occurrence of every distinct point, in order. *)
Fixpoint first_occurrences (seen : list point) (l : list point) : list point :=
  match l with
  | [] => []
  | d :: l' =>
      if is_used seen d then first_occurrences seen l'
      else d :: first_occurrences (d :: seen) l'
  end.

(** Agreement of two points, component by component. *)
Definition point_eq (d e : point) : Prop := fst d == fst e /\ snd d == snd e.

(** [newdata] holds a flag for every point of [totals], and the flag is
    [False] exactly for the used points. *)
Definition represents (totals : list point) (newdata : dict) (used : list point) : Prop :=
  forall d, In d totals -> dict_get newdata d = Some (negb (is_used used d)).

(** The outcomes of [merge_step] and [merge_step_by_used] agree. *)
Definition same_outcome (totals : list point)
    (r : result (dict * list point)) (r' : result (list point * list point)) : Prop :=
  match r, r' with
  | Ok (newdata, res), Ok (used, res') => represents totals newdata used /\ res = res'
  | Err e, Err e' => e = e'
  | _, _ => False
  end.

(** The closed window around [center] of half-width [w]. *)
Definition in_window (center w : Q) (p : Q * Q) : bool :=
  Qle_bool (center - w) (fst p) && Qle_bool (fst p) (center + w).

(** Mass of the [j]-th point of a spectrum. *)
Definition mass_at (data : list (Q * Q)) (j : nat) : Q := nth j (map fst data) 0.

(** ** Sample data *)

Definition sample_settings : Settings :=
  {| mass_modifiers := []; charge_carrier := "proton";
     epsilon := 1 # 100; min_total_contribution := 95 # 100;
     mass_window := 3 # 2 |}.

Definition sample_spectrum : list (Q * Q) :=
  [(100, 10); (101, 20); (102, 30); (200, 40); (201, 50)].

(** An analyte whose envelope is the single isotope [(m, 1)], in front of
    the spectrum [data]. *)
Definition analyte_at (m : Q) (data : list (Q * Q)) : Analyte :=
  set_isotopes
    (Analyte_init {| master_settings := sample_settings;
                     master_building_blocks := ∅;
                     master_peak_name := "H1";
                     mass_spectrum_data := data |})
    [{| exact_mass := m; fraction := 1 |}].

(** ** What the composition methods may change *)

(** The integer attributes that [determine_total_number_of_elements] and
    [attach_mass_modifiers] assign. *)
Definition modified_keys : list string :=
  ["number_carbons"; "number_hydrogens"; "number_nitrogens"; "number_oxygens";
   "number_sulfurs"; "total_number_units"; "number_sialic_acids"]%string.

(** A property of analytes that no assignment to [mass] or to one of the
    [modified_keys] can break. *)
Definition stable (P : Analyte -> Prop) : Prop :=
  (forall a m, P a -> P (set_mass a m))
  /\ (forall a k v, In k modified_keys -> P a -> P (setattr a k v)).

(** [f <$> r] on results. *)
Definition map_result {A B : Type} (f : A -> B) (r : result A) : result B :=
  match r with
  | Ok a => Ok (f a)
  | Err e => Err e
  end.

(** [n] calls of [calculate_isotopes] in a row on the same analyte. *)
Fixpoint repeat_calculate_isotopes (n : nat) (a : Analyte) : result Analyte :=
  match n with
  | O => Ok a
  | S n' => do a' <- calculate_isotopes a; repeat_calculate_isotopes n' a'
  end.

(** A table with a hexose-like unit, a sialic acid, two modifiers and a
    charge carrier; the numbers are for illustration. *)
Definition sample_blocks : gmap string Block :=
  list_to_map
    [("A"%string, mkBlock 100 6 10 0 2 0);
     ("S"%string, mkBlock 291 11 17 1 8 0);
     ("ox"%string, mkBlock 16 0 0 0 2 0);
     ("Per"%string, mkBlock (1401565 # 100000) 1 1 0 0 0);
     ("proton"%string, mkBlock (100728 # 100000) 0 1 0 0 0)].

(** Four units and, after the independent modifiers, ten oxygens and no
    sialic acid, with permethylation configured. *)
Definition permethylated_master : Master :=
  {| master_settings :=
       {| mass_modifiers := ["ox"; "Per"]%string; charge_carrier := "proton";
          epsilon := 1 # 100; min_total_contribution := 95 # 100;
          mass_window := 3 # 2 |};
     master_building_blocks := sample_blocks;
     master_peak_name := "A4";
     mass_spectrum_data := sample_spectrum |}.

(** The analyte has no attribute [total_number_of_units]. *)
Definition lacks_total_number_of_units (a : Analyte) : Prop :=
  attrs a !! "total_number_of_units"%string = None.

(** ** Well-formed names, as the spec words them *)

Definition is_letter_run (u : string) : bool :=
  match u with
  | String c _ => isalpha c
  | EmptyString => false
  end.



(** An analyte named [n] over [sample_blocks], right after the counters
    have been set to zero. *)
Definition named_analyte (n : string) : Analyte :=
  reset (Analyte_init {| master_settings := sample_settings;
                         master_building_blocks := sample_blocks;
                         master_peak_name := n;
                         mass_spectrum_data := sample_spectrum |}).

(** [mass] and the integer attributes that the composition methods update
    all exist. *)
Definition has_counters (a : Analyte) : Prop :=
  mass a <> None /\ forall k, In k modified_keys -> attrs a !! k <> None.

(** ** Repeated calls *)





(** A table small enough to evaluate envelopes: one unit with a carbon, a
    hydrogen and a nitrogen, and a charge carrier without atoms. *)
Definition small_blocks : gmap string Block :=
  list_to_map
    [("X"%string, mkBlock 100 1 1 1 0 0);
     ("e"%string, mkBlock (1 # 2) 0 0 0 0 0)].

Definition small_master (n : string) (eps thr : Q) : Master :=
  {| master_settings :=
       {| mass_modifiers := []; charge_carrier := "e";
          epsilon := eps; min_total_contribution := thr;
          mass_window := 3 # 2 |};
     master_building_blocks := small_blocks;
     master_peak_name := n;
     mass_spectrum_data := sample_spectrum |}.

(** ** The clusters of the merge step, with their seeds

    [clusters_by_used] follows [merge_step_by_used] round by round and keeps,
    for every cluster, the seed and the points it absorbed. *)

Fixpoint clusters_by_used (eps : Q) (totals l used : list point)
  : list (point * list point) :=
  match l with
  | [] => []
  | d :: l' =>
      if is_used used d then clusters_by_used eps totals l' used
      else
        let rest := List.filter (fun e => negb (is_used (d :: used) e)) totals in
        let members := absorbed eps (fst d) rest in
        (d, members) :: clusters_by_used eps totals l' (rev members ++ d :: used)
  end.

Definition merge_clusters (eps : Q) (totals : list point) : list (point * list point) :=
  clusters_by_used eps totals totals [].

(** The [(mass, probability)] tuple appended for a cluster. *)
Definition cluster_point (c : point * list point) : point :=
  (sum (cluster_keys (fst c) (snd c)) / sum (cluster_values (fst c) (snd c)),
   sum (cluster_values (fst c) (snd c))).

(** Some pair occurs more than once. *)
Fixpoint has_duplicate (l : list point) : bool :=
  match l with
  | [] => false
  | d :: l' => existsb (point_eqb d) l' || has_duplicate l'
  end.

(** How often the pair [d] occurs in [l]. *)
Definition occurrences (d : point) (l : list point) : nat :=
  length (List.filter (point_eqb d) l).

(** The probability of the points of [l] that satisfy [f]. *)
Definition wsum (f : point -> bool) (l : list point) : Q :=
  sum (map (fun x => if f x then snd x else 0) l).

(** The same combination, enumerated twice. *)
Definition twice_the_same : list point := [(1, 1 # 2); (1, 1 # 2)].





(** Every character of [u] is a letter, or none is. *)
Definition uniform (u : string) : bool :=
  forallb (fun c => Bool.eqb (isalpha c) (is_letter_run u)) (list_ascii_of_string u).

(** Letter runs and other runs take turns. *)
Fixpoint alternating (units : list string) : Prop :=
  match units with
  | u :: (v :: _) as rest => is_letter_run u = negb (is_letter_run v) /\ alternating rest
  | _ => True
  end.

(** What one block adds to the integer attribute [k] when it is attached as
    an independent modifier. *)
Definition block_count (k : string) (b : Block) : Z :=
  if String.eqb k "number_carbons" then block_carbons b
  else if String.eqb k "number_hydrogens" then block_hydrogens b
  else if String.eqb k "number_nitrogens" then block_nitrogens b
  else if String.eqb k "number_oxygens" then block_oxygens b
  else if String.eqb k "number_sulfurs" then block_sulfurs b
  else 0%Z.

(** The table entries of the modifiers [l], in order. *)
Fixpoint blocks_for (t : gmap string Block) (l : list string) : list Block :=
  match l with
  | [] => []
  | m :: l' =>
      match t !! m with
      | Some b => b :: blocks_for t l'
      | None => blocks_for t l'
      end
  end.

(** * The summary writer ([MassyTools/bin/output.py])

    [Output] reads the spectra of its master, each with its analytes, and
    appends text to the summary file.  The objects it reads are seen through
    the attributes it uses: [analyte.name], [analyte.isotopes],
    [analyte.background_area], [isotope.exact_mass], [isotope.intensity],
    [mass_spectrum.filename], [mass_spectrum.analytes].  [str] of a number
    and [PurePath(...).stem] are parameters of the model. *)

Inductive output_exn : Type :=
  | OutAttributeError (attr : string)
  | NotImplementedError.

Record MeasuredIsotope : Type := mkMeasuredIsotope {
  measured_exact_mass : Q;
  intensity : Q
}.

Record ReportedAnalyte : Type := mkReportedAnalyte {
  reported_name : string;
  reported_isotopes : list MeasuredIsotope;
  background_area : Q
}.

Record ReportedSpectrum : Type := mkReportedSpectrum {
  filename : string;
  analytes : list ReportedAnalyte
}.

(** A number as [str] sees it: [intensity = 0] is an [int] until a float is
    added to it. *)
Inductive number : Type :=
  | Int (z : Z)
  | Float (q : Q).

Definition number_value (n : number) : Q :=
  match n with
  | Int z => inject_Z z
  | Float q => q
  end.

(** The [Output] object: the spectra of the master, the attributes of
    [output_parameters], [self.header] once it is assigned, and the text of
    the summary file. *)
Record Output : Type := mkOutput {
  mass_spectra : list ReportedSpectrum;
  output_parameters : gmap string bool;
  header : option string;
  summary_file : string
}.

Definition set_header (o : Output) (h : string) : Output :=
  {| mass_spectra := mass_spectra o; output_parameters := output_parameters o;
     header := Some h; summary_file := summary_file o |}.

(** [fw.write(text)] on the file opened for appending. *)
Definition write (o : Output) (text : string) : Output :=
  {| mass_spectra := mass_spectra o; output_parameters := output_parameters o;
     header := header o; summary_file := (summary_file o ++ text)%string |}.

(** The characters ['\t'] and ['\n']. *)
Definition tab : string := String "009" "".
Definition newline : string := String "010" "".

Section Output.
Variable str_float : Q -> string.
Variable str_number : number -> string.
Variable stem : string -> string.

(** [Output.build_header]: both outer loops [break] after the first
    spectrum, the innermost one after the first isotope. *)
Definition build_header (o : Output) : Output :=
  let header := ""%string in
  let header :=
    match mass_spectra o with
    | [] => header
    | mass_spectrum :: _ =>
        (fold_left (fun h analyte => (h ++ tab) ++ reported_name analyte)
                   (analytes mass_spectrum) header ++ newline)%string
    end in
  let header := (header ++ "Exact m/z")%string in
  let header :=
    match mass_spectra o with
    | [] => header
    | mass_spectrum :: _ =>
        (fold_left (fun h analyte =>
                      match reported_isotopes analyte with
                      | [] => h
                      | isotope :: _ =>
                          (h ++ tab) ++ str_float (measured_exact_mass isotope)
                      end)
                   (analytes mass_spectrum) header ++ newline)%string
    end in
  set_header o header.

(** [Output.foo] *)
Definition foo (o : Output) : Output * option output_exn :=
  (o, Some NotImplementedError).

(** The loop [for isotope in analyte.isotopes] of
    [write_back_sub_abs_peak_intensity]. *)
Definition background_subtracted (analyte : ReportedAnalyte) : number :=
  fold_left (fun acc isotope =>
               Float (number_value acc + (intensity isotope - background_area analyte)))
            (reported_isotopes analyte) (Int 0).

(** [Output.write_back_sub_abs_peak_intensity] *)
Definition write_back_sub_abs_peak_intensity (o : Output)
  : Output * option output_exn :=
  let o1 := write o "Background Subtracted Intensities" in
  match header o1 with
  | None => (o1, Some (OutAttributeError "header"))
  | Some h =>
      let o2 := write o1 h in
      let o3 :=
        fold_left (fun o mass_spectrum =>
                     let o := write o (stem (filename mass_spectrum)) in
                     let o :=
                       fold_left (fun o analyte =>
                                    write o (tab ++ str_number (background_subtracted analyte))%string)
                                 (analytes mass_spectrum) o in
                     write o newline)
                  (mass_spectra o2) o2 in
      (write o3 newline, None)
  end.

(** [self.output_parameters.k == True] *)
Definition parameter (o : Output) (k : string) : option bool :=
  output_parameters o !! k.

(** Run [k] unless an exception is under way. *)
Definition and_then (r : Output * option output_exn)
    (k : Output -> Output * option output_exn) : Output * option output_exn :=
  match snd r with
  | None => k (fst r)
  | Some e => r
  end.

(** [Output.build_output_file] *)
Definition build_output_file (o : Output) : Output * option output_exn :=
  let o := build_header o in
  and_then
    (match parameter o "absolute_intensity" with
     | None => (o, Some (OutAttributeError "absolute_intensity"))
     | Some true =>
         match parameter o "background_subtraction" with
         | None => (o, Some (OutAttributeError "background_subtraction"))
         | Some true => write_back_sub_abs_peak_intensity o
         | Some false => foo o
         end
     | Some false => (o, None)
     end)
    (fun o =>
  and_then
    (match parameter o "relative_intensity" with
     | None => (o, Some (OutAttributeError "relative_intensity"))
     | Some true =>
         match parameter o "background_subraction" with
         | None => (o, Some (OutAttributeError "background_subraction"))
         | Some true => foo o
         | Some false => foo o
         end
     | Some false => (o, None)
     end)
    (fun o =>
  and_then
    (match parameter o "analyte_quality_criteria" with
     | None => (o, Some (OutAttributeError "analyte_quality_criteria"))
     | Some true => foo o
     | Some false => (o, None)
     end)
    (fun o =>
     match parameter o "spectral_quality_criteria" with
     | None => (o, Some (OutAttributeError "spectral_quality_criteria"))
     | Some true => foo o
     | Some false => (o, None)
     end))).

End Output.

(** What writing to the file leaves alone. *)
Definition same_object (o o' : Output) : Prop :=
  mass_spectra o' = mass_spectra o
  /\ output_parameters o' = output_parameters o
  /\ header o' = header o.

(** The text [write_back_sub_abs_peak_intensity] writes for one spectrum. *)
Definition spectrum_row (str_number : number -> string) (stem : string -> string)
    (mass_spectrum : ReportedSpectrum) : string :=
  (stem (filename mass_spectrum)
   ++ String.concat ""
        (map (fun analyte => tab ++ str_number (background_subtracted analyte))
             (analytes mass_spectrum))
   ++ newline)%string.

(** Output parameters that ask for the relative intensities only; the
    attribute [background_subraction] is not among them. *)
Definition relative_only : Output :=
  {| mass_spectra := [];
     output_parameters :=
       list_to_map [("absolute_intensity"%string, false);
                    ("background_subtraction"%string, true);
                    ("relative_intensity"%string, true);
                    ("analyte_quality_criteria"%string, false);
                    ("spectral_quality_criteria"%string, false)];
     header := None;
     summary_file := "" |}.

(** One spectrum with two analytes, the second one without isotopes. *)
Definition reported_sample : Output :=
  {| mass_spectra :=
       [{| filename := "run1.xy";
           analytes :=
             [{| reported_name := "H5N4";
                 reported_isotopes := [mkMeasuredIsotope 100 50; mkMeasuredIsotope 101 30];
                 background_area := 10 |};
              {| reported_name := "H3N4";
                 reported_isotopes := [];
                 background_area := 10 |}] |}];
     output_parameters := ∅;
     header := Some "";
     summary_file := "" |}.

(** * The experimental settings window
      ([MassyTools/gui/experimental_settings_window.py])

    The window shows the building blocks by their human-readable names in
    two list boxes.  The table is seen through the three attributes the
    window reads, in the iteration order of the dict; a list box is the list
    of its items; [tk.END] appends. *)

Record BlockInfo : Type := mkBlockInfo {
  human_readable_name : string;
  available_for_charge_carrier : Z;
  available_for_mass_modifiers : Z
}.

(** [self.building_blocks]: keys in iteration order, with their entries. *)
Definition BlockTable : Type := list (string * BlockInfo).

Record Window : Type := mkWindow {
  window_charge_carrier : string;
  window_mass_modifiers : list string;
  options : list string;
  charge_carrier_var : string;
  available_modifier : list string;
  selected_modifier : list string
}.

(** [x in l] for a list of strings *)
Definition mem (x : string) (l : list string) : bool :=
  existsb (String.eqb x) l.

(** [ExperimentalSettingsWindow.create_window], for the settings
    [charge_carrier] and [mass_modifiers]. *)
Definition create_window (table : BlockTable) (charge_carrier : string)
    (mass_modifiers : list string) : Window :=
  let options :=
    fold_left (fun options kb =>
                 if (available_for_charge_carrier (snd kb) =? 1)%Z
                 then options ++ [fst kb] else options)
              table [] in
  let boxes :=
    fold_left (fun boxes kb =>
                 if mem (fst kb) mass_modifiers
                 then (fst boxes, snd boxes ++ [human_readable_name (snd kb)])
                 else if (available_for_mass_modifiers (snd kb) =? 1)%Z
                 then (fst boxes ++ [human_readable_name (snd kb)], snd boxes)
                 else boxes)
              table ([], []) in
  {| window_charge_carrier := charge_carrier;
     window_mass_modifiers := mass_modifiers;
     options := options;
     charge_carrier_var := charge_carrier;
     available_modifier := fst boxes;
     selected_modifier := snd boxes |}.

(** [ExperimentalSettingsWindow.store_settings] *)
Definition store_settings (table : BlockTable) (w : Window) : Window :=
  let mass_modifiers :=
    fold_left (fun acc mass_modifier =>
                 fold_left (fun acc kb =>
                              if String.eqb mass_modifier (human_readable_name (snd kb))
                              then acc ++ [fst kb] else acc)
                           table acc)
              (selected_modifier w) [] in
  {| window_charge_carrier := charge_carrier_var w;
     window_mass_modifiers := mass_modifiers;
     options := options w;
     charge_carrier_var := charge_carrier_var w;
     available_modifier := available_modifier w;
     selected_modifier := selected_modifier w |}.

(** [listbox.delete(index)] *)
Fixpoint delete_at {A : Type} (index : nat) (l : list A) : list A :=
  match l, index with
  | [], _ => []
  | _ :: l', O => l'
  | x :: l', S i => x :: delete_at i l'
  end.

(** [onselect1], bound to the list box of the available modifiers;
    [curselection] is what [w.curselection()] returns. *)
Definition onselect1 (curselection : list nat) (w : Window) : result Window :=
  match curselection with
  | [] => Err IndexError
  | index :: _ =>
      let value := nth index (available_modifier w) ""%string in
      Ok {| window_charge_carrier := window_charge_carrier w;
            window_mass_modifiers := window_mass_modifiers w;
            options := options w;
            charge_carrier_var := charge_carrier_var w;
            available_modifier := delete_at index (available_modifier w);
            selected_modifier := selected_modifier w ++ [value] |}
  end.

(** [onselect2], bound to the list box of the selected modifiers. *)
Definition onselect2 (curselection : list nat) (w : Window) : result Window :=
  match curselection with
  | [] => Err IndexError
  | index :: _ =>
      let value := nth index (selected_modifier w) ""%string in
      Ok {| window_charge_carrier := window_charge_carrier w;
            window_mass_modifiers := window_mass_modifiers w;
            options := options w;
            charge_carrier_var := charge_carrier_var w;
            available_modifier := available_modifier w ++ [value];
            selected_modifier := delete_at index (selected_modifier w) |}
  end.

(** A small table: two modifiers and a charge carrier. *)
Definition sample_table : BlockTable :=
  [("Per"%string, mkBlockInfo "Permethylation" 0 1);
   ("free"%string, mkBlockInfo "Free reducing end" 0 1);
   ("proton"%string, mkBlockInfo "Proton" 1 0)].

(** * Properties *)

(** ** Rational comparisons *)

Lemma Qlt_bool_iff (x y : Q) : Qlt_bool x y = true <-> x < y.
Proof.
  unfold Qlt_bool. rewrite negb_true_iff.
  destruct (Qle_bool y x) eqn:E.
  - apply Qle_bool_iff in E. split; [discriminate | intros Hlt; lra].
  - split; [intros _ | reflexivity].
    destruct (Qlt_le_dec x y) as [Hlt | Hle]; [exact Hlt |].
    apply Qle_bool_iff in Hle. congruence.
Qed.

Lemma Qlt_bool_false (x y : Q) : Qlt_bool x y = false <-> y <= x.
Proof.
  unfold Qlt_bool. rewrite negb_false_iff. apply Qle_bool_iff.
Qed.

Lemma Qeq_bool_refl (x : Q) : Qeq_bool x x = true.
Proof. apply Qeq_bool_iff. reflexivity. Qed.

Lemma point_eqb_iff (d e : point) :
  point_eqb d e = true <-> fst d == fst e /\ snd d == snd e.
Proof.
  unfold point_eqb. rewrite andb_true_iff, !Qeq_bool_iff. reflexivity.
Qed.

Lemma point_eqb_refl (d : point) : point_eqb d d = true.
Proof. apply point_eqb_iff. split; reflexivity. Qed.

Lemma point_eqb_sym (d e : point) : point_eqb d e = point_eqb e d.
Proof.
  destruct (point_eqb d e) eqn:E1, (point_eqb e d) eqn:E2; try reflexivity.
  - apply point_eqb_iff in E1 as [H1 H2].
    assert (point_eqb e d = true) by (apply point_eqb_iff; split; symmetry; assumption).
    congruence.
  - apply point_eqb_iff in E2 as [H1 H2].
    assert (point_eqb d e = true) by (apply point_eqb_iff; split; symmetry; assumption).
    congruence.
Qed.

Lemma point_eqb_trans (d e f : point) :
  point_eqb d e = true -> point_eqb e f = true -> point_eqb d f = true.
Proof.
  rewrite !point_eqb_iff. intros [H1 H2] [H3 H4].
  split; etransitivity; eassumption.
Qed.

(** Two equal keys answer every comparison alike. *)
Lemma point_eqb_congr (d e f : point) :
  point_eqb d e = true -> point_eqb d f = point_eqb e f.
Proof.
  intros Hde.
  destruct (point_eqb d f) eqn:E1, (point_eqb e f) eqn:E2; try reflexivity.
  - rewrite point_eqb_sym in Hde.
    pose proof (point_eqb_trans _ _ _ Hde E1). congruence.
  - pose proof (point_eqb_trans _ _ _ Hde E2). congruence.
Qed.

(** ** The dict [newdata] *)

Lemma dict_get_set (m : dict) (k d : point) (b : bool) :
  dict_get (dict_set m k b) d = if point_eqb k d then Some b else dict_get m d.
Proof.
  induction m as [| [k0 c] m IH]; simpl.
  - reflexivity.
  - destruct (point_eqb k0 k) eqn:E0; simpl.
    + rewrite (point_eqb_congr _ _ d E0).
      destruct (point_eqb k d); reflexivity.
    + destruct (point_eqb k0 d) eqn:E1.
      * destruct (point_eqb k d) eqn:E2; [| reflexivity].
        rewrite (point_eqb_sym k d) in E2.
        pose proof (point_eqb_trans _ _ _ E1 E2). congruence.
      * apply IH.
Qed.

Lemma dict_get_fold_set (b : bool) (l : list point) (m : dict) (d : point) :
  dict_get (fold_left (fun m e => dict_set m e b) l m) d
  = if existsb (point_eqb d) l then Some b else dict_get m d.
Proof.
  revert m. induction l as [| e l IH]; intros m; simpl.
  - reflexivity.
  - rewrite IH, dict_get_set, (point_eqb_sym d e).
    destruct (point_eqb e d), (existsb (point_eqb d) l); reflexivity.
Qed.

Lemma existsb_point_eqb_In (d : point) (l : list point) :
  In d l -> existsb (point_eqb d) l = true.
Proof.
  intros Hin. apply existsb_exists. exists d. split; [exact Hin | apply point_eqb_refl].
Qed.

Lemma dict_get_all_true (totals : list point) (d : point) :
  In d totals -> dict_get (all_true totals) d = Some true.
Proof.
  intros Hin. unfold all_true.
  rewrite dict_get_fold_set, existsb_point_eqb_In; [reflexivity | exact Hin].
Qed.

(** ** [merge] and [merge_by_used] agree *)


Lemma represents_all_true (totals : list point) :
  represents totals (all_true totals) [].
Proof. intros d Hin. simpl. apply dict_get_all_true, Hin. Qed.

Lemma represents_set (totals : list point) newdata used (d : point) :
  represents totals newdata used ->
  represents totals (dict_set newdata d false) (d :: used).
Proof.
  intros Hrep e Hin. rewrite dict_get_set. unfold is_used. simpl.
  rewrite (point_eqb_sym e d).
  destruct (point_eqb d e); [reflexivity | apply Hrep, Hin].
Qed.

Lemma unconsumed_filter (totals : list point) newdata used (l : list point) :
  represents totals newdata used -> incl l totals ->
  unconsumed newdata l = Ok (List.filter (fun e => negb (is_used used e)) l).
Proof.
  intros Hrep. induction l as [| d l IH]; intros Hincl; simpl.
  - reflexivity.
  - unfold flag. rewrite (Hrep d) by (apply Hincl; left; reflexivity).
    rewrite IH by (intros x Hx; apply Hincl; right; exact Hx).
    destruct (is_used used d); reflexivity.
Qed.

Lemma fold_absorb_step (eps k : Q) (rest : list point) keys values newdata :
  fold_left (absorb_step eps k) rest (keys, values, newdata)
  = (keys ++ map (fun e => fst e * snd e) (absorbed eps k rest),
     values ++ map snd (absorbed eps k rest),
     fold_left (fun m e => dict_set m e false) (absorbed eps k rest) newdata).
Proof.
  revert keys values newdata.
  induction rest as [| e rest IH]; intros keys values newdata.
  - simpl. rewrite !app_nil_r. reflexivity.
  - cbn [fold_left]. unfold absorbed. cbn [List.filter].
    fold (absorbed eps k rest).
    replace (absorb_step eps k (keys, values, newdata) e)
      with (if Qlt_bool (Qabs (k - fst e)) eps
            then (keys ++ [fst e * snd e], values ++ [snd e], dict_set newdata e false)
            else (keys, values, newdata)) by reflexivity.
    destruct (Qlt_bool (Qabs (k - fst e)) eps).
    + rewrite IH. cbn [map fold_left]. rewrite <- !app_assoc. reflexivity.
    + apply IH.
Qed.

Lemma existsb_rev_eq {A : Type} (f : A -> bool) (l : list A) :
  existsb f (rev l) = existsb f l.
Proof.
  induction l as [| x l IH]; simpl.
  - reflexivity.
  - rewrite existsb_app, IH. simpl. rewrite orb_false_r. apply orb_comm.
Qed.

Lemma represents_fold_set (totals : list point) newdata used (l : list point) :
  represents totals newdata used ->
  represents totals (fold_left (fun m e => dict_set m e false) l newdata)
             (rev l ++ used).
Proof.
  intros Hrep d Hin. rewrite dict_get_fold_set. unfold is_used.
  rewrite existsb_app, existsb_rev_eq.
  destruct (existsb (point_eqb d) l); [reflexivity | apply Hrep, Hin].
Qed.


Lemma merge_step_by_used_ok (eps : Q) (totals : list point) newdata used res d :
  represents totals newdata used -> In d totals ->
  same_outcome totals (merge_step eps totals (newdata, res) d)
                      (merge_step_by_used eps totals (used, res) d).
Proof.
  intros Hrep Hin. unfold merge_step, merge_step_by_used, flag.
  rewrite (Hrep d Hin). simpl.
  destruct (is_used used d) eqn:Eu; simpl.
  - split; [exact Hrep | reflexivity].
  - pose proof (represents_set totals newdata used d Hrep) as Hrep1.
    rewrite (unconsumed_filter totals _ (d :: used) totals Hrep1 (incl_refl _)).
    simpl. rewrite fold_absorb_step.
    fold (cluster_keys d (absorbed eps (fst d)
            (List.filter (fun e => negb (is_used (d :: used) e)) totals))).
    fold (cluster_values d (absorbed eps (fst d)
            (List.filter (fun e => negb (is_used (d :: used) e)) totals))).
    destruct (Qeq_bool _ 0); simpl.
    + reflexivity.
    + split; [| reflexivity].
      apply represents_fold_set, Hrep1.
Qed.

Lemma for_each_merge_steps (eps : Q) (totals l : list point) newdata used res :
  represents totals newdata used -> incl l totals ->
  same_outcome totals (for_each (merge_step eps totals) l (newdata, res))
                      (for_each (merge_step_by_used eps totals) l (used, res)).
Proof.
  revert newdata used res.
  induction l as [| d l IH]; intros newdata used res Hrep Hincl.
  - split; [exact Hrep | reflexivity].
  - pose proof (merge_step_by_used_ok eps totals newdata used res d Hrep
                  (Hincl d (or_introl eq_refl))) as Hstep.
    cbn [for_each].
    destruct (merge_step eps totals (newdata, res) d) as [[nd1 r1] | e1],
             (merge_step_by_used eps totals (used, res) d) as [[u1 r1'] | e1'];
      cbn [bind same_outcome] in Hstep |- *; try contradiction.
    + destruct Hstep as [Hrep1 ->].
      apply IH; [exact Hrep1 | intros x Hx; apply Hincl; right; exact Hx].
    + exact Hstep.
Qed.

Lemma merge_eq_merge_by_used (eps : Q) (totals : list point) :
  merge eps totals = merge_by_used eps totals.
Proof.
  unfold merge, merge_by_used.
  pose proof (for_each_merge_steps eps totals totals (all_true totals) [] []
                (represents_all_true totals) (incl_refl _)) as Hsame.
  destruct (for_each (merge_step eps totals) totals (all_true totals, []))
    as [[nd r] | e],
    (for_each (merge_step_by_used eps totals) totals ([], [])) as [[u r'] | e'];
    simpl in Hsame |- *; try contradiction.
  - destruct Hsame as [_ ->]. reflexivity.
  - congruence.
Qed.

(** ** Sums *)

Lemma fold_left_Qplus (l : list Q) (a : Q) : fold_left Qplus l a == a + sum l.
Proof.
  unfold sum. revert a. induction l as [| x l IH]; intros a; simpl.
  - lra.
  - rewrite IH, (IH (0 + x)). lra.
Qed.

Lemma sum_nil : sum [] == 0.
Proof. reflexivity. Qed.

Lemma sum_cons (x : Q) (l : list Q) : sum (x :: l) == x + sum l.
Proof. unfold sum at 1. simpl. rewrite fold_left_Qplus. lra. Qed.

Lemma sum_app (l1 l2 : list Q) : sum (l1 ++ l2) == sum l1 + sum l2.
Proof.
  induction l1 as [| x l1 IH]; simpl.
  - rewrite sum_nil. lra.
  - rewrite !sum_cons, IH. lra.
Qed.

(** ** Merging with a tolerance that is not positive *)

Lemma absorbed_nonpositive (eps k : Q) (rest : list point) :
  eps <= 0 -> absorbed eps k rest = [].
Proof.
  intros Heps. unfold absorbed. induction rest as [| e rest IH]; cbn [List.filter].
  - reflexivity.
  - assert (Qlt_bool (Qabs (k - fst e)) eps = false) as ->.
    { apply Qlt_bool_false. pose proof (Qabs_nonneg (k - fst e)). lra. }
    exact IH.
Qed.

Lemma singleton_cluster (d : point) :
  ~ snd d == 0 ->
  point_eq d (sum (cluster_keys d []) / sum (cluster_values d []),
              sum (cluster_values d [])).
Proof.
  intros Hnz. unfold point_eq, cluster_keys, cluster_values. simpl.
  rewrite !sum_cons, !sum_nil. split.
  - field. lra.
  - lra.
Qed.

Lemma for_each_merge_nonpositive (eps : Q) (totals l used res : list point) :
  eps <= 0 -> Forall (fun d => ~ snd d == 0) l ->
  exists used' clusters,
    for_each (merge_step_by_used eps totals) l (used, res) = Ok (used', res ++ clusters)
    /\ Forall2 point_eq (first_occurrences used l) clusters.
Proof.
  intros Heps Hnz. revert used res.
  induction Hnz as [| d l Hd Hl IH]; intros used res.
  - exists used, []. simpl. rewrite app_nil_r. split; [reflexivity | constructor].
  - cbn [for_each first_occurrences]. unfold merge_step_by_used at 1.
    destruct (is_used used d) eqn:Eu; cbn [bind].
    + apply IH.
    + rewrite absorbed_nonpositive by exact Heps.
      pose proof (singleton_cluster d Hd) as Hc.
      assert (Qeq_bool (sum (cluster_values d [])) 0 = false) as ->.
      { destruct (Qeq_bool (sum (cluster_values d [])) 0) eqn:E; [| reflexivity].
        apply Qeq_bool_iff in E. destruct Hc as [_ Hc]. simpl in Hc.
        rewrite <- Hc in E. contradiction. }
      cbn [bind rev app].
      destruct (IH (d :: used)
                  (res ++ [(sum (cluster_keys d []) / sum (cluster_values d []),
                            sum (cluster_values d []))]))
        as (used' & clusters & Hrun & Hall).
      exists used', ((sum (cluster_keys d []) / sum (cluster_values d []),
                      sum (cluster_values d [])) :: clusters).
      split.
      * etransitivity; [exact Hrun |]. rewrite <- app_assoc. reflexivity.
      * constructor; assumption.
Qed.





(** ** The two sorts *)

Lemma insert_desc_perm (x : point) (l : list point) :
  Permutation (x :: l) (insert_desc x l).
Proof.
  induction l as [| y l IH]; simpl.
  - apply Permutation_refl.
  - destruct (Qlt_bool (snd x) (snd y)).
    + eapply perm_trans; [apply perm_swap | apply perm_skip, IH].
    + apply Permutation_refl.
Qed.

Lemma sorted_by_probability_desc_perm (l : list point) :
  Permutation l (sorted_by_probability_desc l).
Proof.
  induction l as [| x l IH]; simpl.
  - apply perm_nil.
  - eapply perm_trans; [apply perm_skip, IH | apply insert_desc_perm].
Qed.

Lemma insert_desc_sorted (x : point) (l : list point) :
  StronglySorted (fun d e => snd e <= snd d) l ->
  StronglySorted (fun d e => snd e <= snd d) (insert_desc x l).
Proof.
  induction 1 as [| y l Hs IH Hy]; simpl.
  - constructor; constructor.
  - destruct (Qlt_bool (snd x) (snd y)) eqn:E.
    + apply Qlt_bool_iff in E. constructor; [exact IH |].
      apply (Permutation_Forall (insert_desc_perm x l)).
      constructor; [lra | exact Hy].
    + apply Qlt_bool_false in E. constructor.
      * constructor; assumption.
      * constructor; [exact E |].
        eapply List.Forall_impl; [| exact Hy]. simpl. intros e He. lra.
Qed.

Lemma sorted_by_probability_desc_sorted (l : list point) :
  StronglySorted (fun d e => snd e <= snd d) (sorted_by_probability_desc l).
Proof.
  induction l as [| x l IH]; simpl.
  - constructor.
  - apply insert_desc_sorted, IH.
Qed.





(** ** Truncation *)

(** The running total after the first [m] clusters of [l]. *)
Lemma truncate_prefix (thr : Q) (l results : list point) (totals : Q) :
  exists n : nat,
    truncate thr l results totals = results ++ firstn n l
    /\ (n <= length l)%nat
    /\ (l <> [] -> (1 <= n)%nat)
    /\ (forall m : nat, (1 <= m < n)%nat ->
          fold_left Qplus (map snd (firstn m l)) totals <= thr)
    /\ (thr < fold_left Qplus (map snd (firstn n l)) totals \/ n = length l).
Proof.
  revert results totals. induction l as [| r l IH]; intros results totals.
  - exists 0%nat. simpl. rewrite app_nil_r.
    repeat split; [lia | congruence | lia | right; reflexivity].
  - cbn [truncate]. destruct (Qlt_bool thr (totals + snd r)) eqn:E.
    + apply Qlt_bool_iff in E. exists 1%nat. simpl.
      repeat split; [lia | lia | lia | left; exact E].
    + apply Qlt_bool_false in E.
      destruct (IH (results ++ [r]) (totals + snd r))
        as (n & Hrun & Hlen & Hpos & Hbelow & Hlast).
      exists (S n). cbn [firstn map fold_left length].
      repeat split.
      * rewrite Hrun, <- app_assoc. reflexivity.
      * lia.
      * lia.
      * intros m Hm. destruct m as [| m]; [lia |].
        cbn [firstn map fold_left].
        destruct m as [| m]; [simpl; exact E |].
        apply Hbelow. lia.
      * destruct Hlast as [Hlast | Hlast]; [left; exact Hlast | right; lia].
Qed.

(** C3: the retained clusters are the shortest prefix, in descending order of
    probability, whose probabilities add up to more than
    [min_total_contribution]; every shorter prefix, the one without the last
    retained cluster included, adds up to at most the threshold; when no
    prefix goes above the threshold all clusters are retained. *)
Theorem truncate_shortest_prefix (thr : Q) (clusters : list point) :
  0 <= thr ->
  let ranked := sorted_by_probability_desc clusters in
  Permutation clusters ranked
  /\ StronglySorted (fun d e => snd e <= snd d) ranked
  /\ exists n : nat,
       truncate thr ranked [] 0 = firstn n ranked
       /\ (n <= length ranked)%nat
       /\ (forall m : nat, (m < n)%nat -> sum (map snd (firstn m ranked)) <= thr)
       /\ (thr < sum (map snd (firstn n ranked)) \/ n = length ranked).
Proof.
  intros Hthr ranked.
  split; [apply sorted_by_probability_desc_perm |].
  split; [apply sorted_by_probability_desc_sorted |].
  destruct (truncate_prefix thr ranked [] 0)
    as (n & Hrun & Hlen & _ & Hbelow & Hlast).
  exists n. repeat split.
  - exact Hrun.
  - exact Hlen.
  - intros m Hm. destruct m as [| m].
    + simpl. exact Hthr.
    + apply Hbelow. lia.
  - exact Hlast.
Qed.

Lemma truncate_shortest_prefix_witness :
  let ranked := sorted_by_probability_desc [(1, 1 # 4); (2, 1 # 2); (3, 1 # 4)] in
  Permutation [(1, 1 # 4); (2, 1 # 2); (3, 1 # 4)] ranked
  /\ StronglySorted (fun d e => snd e <= snd d) ranked
  /\ exists n : nat,
       truncate (7 # 10) ranked [] 0 = firstn n ranked
       /\ (n <= length ranked)%nat
       /\ (forall m : nat, (m < n)%nat -> sum (map snd (firstn m ranked)) <= 7 # 10)
       /\ (7 # 10 < sum (map snd (firstn n ranked)) \/ n = length ranked).
Proof.
  apply (truncate_shortest_prefix (7 # 10) [(1, 1 # 4); (2, 1 # 2); (3, 1 # 4)]).
  unfold Qle. simpl. lia.
Defined.

Example truncate_example :
  truncate (7 # 10) (sorted_by_probability_desc [(1, 1 # 4); (2, 1 # 2); (3, 1 # 4)]) [] 0
  = [(2, 1 # 2); (1, 1 # 4)].
Proof. reflexivity. Qed.

(** ** Binary search *)

Lemma sorted_nth (a : list Q) :
  StronglySorted Qle a ->
  forall i j : nat, (i <= j < length a)%nat -> nth i a 0 <= nth j a 0.
Proof.
  induction 1 as [| x a Hs IH Hx]; intros i j Hij; simpl in Hij.
  - lia.
  - destruct i as [| i], j as [| j]; simpl; try lia.
    + lra.
    + rewrite List.Forall_forall in Hx. apply Hx, nth_In. lia.
    + apply IH. lia.
Qed.

Lemma midpoint_bounds (lo hi : nat) :
  (lo < hi)%nat -> (lo <= (lo + hi) / 2 < hi)%nat.
Proof.
  intros Hlt.
  pose proof (Nat.div_mod_eq (lo + hi) 2) as Hdm.
  pose proof (Nat.mod_upper_bound (lo + hi) 2) as Hm.
  lia.
Qed.

Lemma bisect_left_loop_spec (a : list Q) (x : Q) :
  StronglySorted Qle a ->
  forall (fuel lo hi : nat),
    (lo <= hi <= length a)%nat -> (hi - lo <= fuel)%nat ->
    (forall j, (j < lo)%nat -> nth j a 0 < x) ->
    (forall j, (hi <= j < length a)%nat -> x <= nth j a 0) ->
    let r := bisect_left_loop fuel a x lo hi in
    (r <= length a)%nat
    /\ (forall j, (j < r)%nat -> nth j a 0 < x)
    /\ (forall j, (r <= j < length a)%nat -> x <= nth j a 0).
Proof.
  intros Hs. induction fuel as [| fuel IH]; intros lo hi Hb Hf Hlo Hhi; cbn [bisect_left_loop].
  - assert (lo = hi) as -> by lia. repeat split; [lia | exact Hlo | exact Hhi].
  - destruct (lo <? hi)%nat eqn:E.
    + apply Nat.ltb_lt in E. pose proof (midpoint_bounds lo hi E) as Hmid.
      destruct (Qlt_bool (nth ((lo + hi) / 2) a 0) x) eqn:Ec.
      * apply Qlt_bool_iff in Ec. apply IH; [lia | lia | | exact Hhi].
        intros j Hj.
        pose proof (sorted_nth a Hs j ((lo + hi) / 2) ltac:(lia)). lra.
      * apply Qlt_bool_false in Ec. apply IH; [lia | lia | exact Hlo |].
        intros j Hj.
        pose proof (sorted_nth a Hs ((lo + hi) / 2) j ltac:(lia)). lra.
    + apply Nat.ltb_ge in E. assert (lo = hi) as -> by lia.
      repeat split; [lia | exact Hlo | exact Hhi].
Qed.

Lemma bisect_left_spec (a : list Q) (x : Q) :
  StronglySorted Qle a ->
  (bisect_left a x <= length a)%nat
  /\ (forall j, (j < bisect_left a x)%nat -> nth j a 0 < x)
  /\ (forall j, (bisect_left a x <= j < length a)%nat -> x <= nth j a 0).
Proof.
  intros Hs. unfold bisect_left.
  apply (bisect_left_loop_spec a x Hs); try lia; intros j Hj; lia.
Qed.

Lemma bisect_right_loop_spec (a : list Q) (x : Q) :
  StronglySorted Qle a ->
  forall (fuel lo hi : nat),
    (lo <= hi <= length a)%nat -> (hi - lo <= fuel)%nat ->
    (forall j, (j < lo)%nat -> nth j a 0 <= x) ->
    (forall j, (hi <= j < length a)%nat -> x < nth j a 0) ->
    let r := bisect_right_loop fuel a x lo hi in
    (r <= length a)%nat
    /\ (forall j, (j < r)%nat -> nth j a 0 <= x)
    /\ (forall j, (r <= j < length a)%nat -> x < nth j a 0).
Proof.
  intros Hs. induction fuel as [| fuel IH]; intros lo hi Hb Hf Hlo Hhi; cbn [bisect_right_loop].
  - assert (lo = hi) as -> by lia. repeat split; [lia | exact Hlo | exact Hhi].
  - destruct (lo <? hi)%nat eqn:E.
    + apply Nat.ltb_lt in E. pose proof (midpoint_bounds lo hi E) as Hmid.
      destruct (Qlt_bool x (nth ((lo + hi) / 2) a 0)) eqn:Ec.
      * apply Qlt_bool_iff in Ec. apply IH; [lia | lia | exact Hlo |].
        intros j Hj.
        pose proof (sorted_nth a Hs ((lo + hi) / 2) j ltac:(lia)). lra.
      * apply Qlt_bool_false in Ec. apply IH; [lia | lia | | exact Hhi].
        intros j Hj.
        pose proof (sorted_nth a Hs j ((lo + hi) / 2) ltac:(lia)). lra.
    + apply Nat.ltb_ge in E. assert (lo = hi) as -> by lia.
      repeat split; [lia | exact Hlo | exact Hhi].
Qed.

Lemma bisect_right_spec (a : list Q) (x : Q) :
  StronglySorted Qle a ->
  (bisect_right a x <= length a)%nat
  /\ (forall j, (j < bisect_right a x)%nat -> nth j a 0 <= x)
  /\ (forall j, (bisect_right a x <= j < length a)%nat -> x < nth j a 0).
Proof.
  intros Hs. unfold bisect_right.
  apply (bisect_right_loop_spec a x Hs); try lia; intros j Hj; lia.
Qed.

(** ** Slices *)

Lemma filter_slice {A : Type} (P : A -> bool) (dflt : A) (d : list A) :
  forall l r : nat,
    (forall j, (j < length d)%nat -> P (nth j d dflt) = true <-> (l <= j < r)%nat) ->
    List.filter P d = slice d l r.
Proof.
  unfold slice. induction d as [| p d IH]; intros l r Hchar.
  - rewrite skipn_nil, firstn_nil. reflexivity.
  - cbn [List.filter]. destruct l as [| l].
    + destruct r as [| r].
      * assert (P p = false) as ->.
        { destruct (P p) eqn:E; [| reflexivity].
          apply (Hchar 0%nat) in E; [lia | simpl; lia]. }
        rewrite (IH 0%nat 0%nat); [reflexivity |].
        intros j Hj.
        specialize (Hchar (S j)). simpl in Hchar. rewrite Hchar by lia. lia.
      * assert (P p = true) as ->.
        { apply (Hchar 0%nat); simpl; lia. }
        simpl. f_equal. rewrite (IH 0%nat r).
        -- rewrite Nat.sub_0_r. reflexivity.
        -- intros j Hj. specialize (Hchar (S j)). simpl in Hchar.
           rewrite Hchar by lia. lia.
    + assert (P p = false) as ->.
      { destruct (P p) eqn:E; [| reflexivity].
        apply (Hchar 0%nat) in E; [lia | simpl; lia]. }
      rewrite (IH l (r - 1)%nat).
      * simpl. f_equal. lia.
      * intros j Hj. specialize (Hchar (S j)). simpl in Hchar.
        rewrite Hchar by lia. lia.
Qed.

Lemma combine_slices (data : list (Q * Q)) (l r : nat) :
  combine (slice (map fst data) l r) (slice (map snd data) l r) = slice data l r.
Proof.
  unfold slice. rewrite !skipn_map, !firstn_map.
  generalize (firstn (r - l) (skipn l data)). intros d.
  induction d as [| [x y] d IH]; simpl; [reflexivity | rewrite IH; reflexivity].
Qed.

Lemma window_slice (data : list (Q * Q)) (center w : Q) :
  StronglySorted Qle (map fst data) ->
  slice data (bisect_left (map fst data) (center - w))
             (bisect_right (map fst data) (center + w))
  = List.filter (in_window center w) data.
Proof.
  intros Hs. symmetry. apply (filter_slice _ (0, 0)).
  intros j Hj.
  destruct (bisect_left_spec (map fst data) (center - w) Hs) as (_ & Hl1 & Hl2).
  destruct (bisect_right_spec (map fst data) (center + w) Hs) as (_ & Hr1 & Hr2).
  rewrite length_map in Hl2, Hr2.
  assert (nth j (map fst data) 0 = fst (nth j data (0, 0))) as Hnth
      by (apply (map_nth fst data (0, 0) j)).
  unfold in_window. rewrite andb_true_iff, !Qle_bool_iff, <- Hnth.
  split.
  - intros [H1 H2]. split.
    + destruct (le_lt_dec (bisect_left (map fst data) (center - w)) j) as [Hle | Hlt];
        [exact Hle |]. specialize (Hl1 j Hlt). lra.
    + destruct (le_lt_dec (bisect_right (map fst data) (center + w)) j) as [Hle | Hlt];
        [| exact Hlt]. specialize (Hr2 j (conj Hle Hj)). lra.
  - intros [H1 H2]. split; [apply Hl2; lia | apply Hr1; lia].
Qed.

(** ** The reference mass *)

Lemma fold_max_spec (l : list Q) (x : Q) :
  let m := fold_left (fun m y => if Qlt_bool m y then y else m) l x in
  In m (x :: l) /\ forall y, In y (x :: l) -> y <= m.
Proof.
  revert x. induction l as [| z l IH]; intros x; cbn [fold_left].
  - split; [left; reflexivity |]. intros y [<- | []]. lra.
  - destruct (Qlt_bool x z) eqn:E.
    + apply Qlt_bool_iff in E. destruct (IH z) as [Hin Hmax]. split.
      * right. exact Hin.
      * intros y [<- | Hy]; [| apply Hmax, Hy].
        specialize (Hmax z (or_introl eq_refl)). lra.
    + apply Qlt_bool_false in E. destruct (IH x) as [Hin Hmax]. split.
      * destruct Hin as [<- | Hin]; [left; reflexivity | right; right; exact Hin].
      * intros y [<- | [<- | Hy]].
        -- apply Hmax. left. reflexivity.
        -- specialize (Hmax x (or_introl eq_refl)). lra.
        -- apply Hmax. right. exact Hy.
Qed.

Lemma find_center_mass_fold (m : Q) (l : list Isotope) (acc : option Q) :
  let r := fold_left (fun c i => if Qeq_bool (fraction i) m
                                 then Some (exact_mass i) else c) l acc in
  (r = acc /\ forall i, In i l -> Qeq_bool (fraction i) m = false)
  \/ (exists i, In i l /\ r = Some (exact_mass i) /\ Qeq_bool (fraction i) m = true).
Proof.
  revert acc. induction l as [| i l IH]; intros acc; cbn [fold_left].
  - left. split; [reflexivity | intros i []].
  - destruct (Qeq_bool (fraction i) m) eqn:E.
    + destruct (IH (Some (exact_mass i))) as [[Hr Hnone] | (j & Hj & Hr & Hjm)].
      * right. exists i. split; [left; reflexivity | split; assumption].
      * right. exists j. split; [right; exact Hj | split; assumption].
    + destruct (IH acc) as [[Hr Hnone] | (j & Hj & Hr & Hjm)].
      * left. split; [exact Hr |]. intros j [<- | Hj]; [exact E | apply Hnone, Hj].
      * right. exists j. split; [right; exact Hj | split; assumption].
Qed.

Lemma center_mass_spec (l : list Isotope) :
  l <> [] ->
  exists (mx : Q) (i : Isotope),
    max_of (map fraction l) = Ok mx
    /\ find_center_mass mx l = Some (exact_mass i)
    /\ In i l
    /\ forall j, In j l -> fraction j <= fraction i.
Proof.
  intros Hne. destruct l as [| i0 l]; [congruence |]. clear Hne.
  cbn [map max_of].
  destruct (fold_max_spec (map fraction l) (fraction i0)) as [Hin Hmax].
  set (mx := fold_left _ (map fraction l) (fraction i0)) in *.
  change (fraction i0 :: map fraction l) with (map fraction (i0 :: l)) in Hin, Hmax.
  exists mx.
  destruct (find_center_mass_fold mx (i0 :: l) None) as [[_ Hnone] | (i & Hi & Hr & Him)].
  - apply in_map_iff in Hin as (j & Hj & Hjin).
    specialize (Hnone j Hjin). rewrite Hj, Qeq_bool_refl in Hnone. discriminate.
  - exists i. split; [reflexivity |]. split; [exact Hr |]. split; [exact Hi |].
    intros j Hj. apply Qeq_bool_iff in Him. rewrite Him.
    apply Hmax, in_map, Hj.
Qed.

Lemma Qlt_sorted_Qle (a : list Q) : StronglySorted Qlt a -> StronglySorted Qle a.
Proof.
  induction 1 as [| x a Hs IH Hx]; constructor; [exact IH |].
  eapply List.Forall_impl; [| exact Hx]. intros y Hy. lra.
Qed.

(** What [inherit_data_subset] computes on a non-empty ascending spectrum. *)
Lemma inherit_data_subset_spec (a : Analyte) :
  let data := mass_spectrum_data (master a) in
  let w := mass_window (settings a) in
  StronglySorted Qle (map fst data) -> data <> [] -> isotopes a <> [] ->
  exists i : Isotope,
    In i (isotopes a)
    /\ (forall j, In j (isotopes a) -> fraction j <= fraction i)
    /\ inherit_data_subset a
       = Ok (set_data_subset a
               (slice data (bisect_left (map fst data) (exact_mass i - w))
                           (bisect_right (map fst data) (exact_mass i + w)))).
Proof.
  intros data w Hs Hdata Hiso.
  destruct (center_mass_spec (isotopes a) Hiso) as (mx & i & Hmax & Hc & Hi & Hbest).
  exists i. split; [exact Hi |]. split; [exact Hbest |].
  unfold inherit_data_subset. fold data.
  destruct data as [| p data'] eqn:Ed; [congruence |].
  cbn [bind fst snd]. rewrite Hmax. cbn [bind]. rewrite Hc. cbn [bind].
  rewrite combine_slices. reflexivity.
Qed.

(** C6: on a strictly ascending spectrum the extracted subset is the slice
    from the first index whose mass is at least [reference - mass_window]
    up to, and not including, the first index whose mass is above
    [reference + mass_window], where the reference is the mass of an isotope
    of maximal fraction; these are exactly the points of the closed window. *)
Theorem inherit_data_subset_window (a : Analyte) :
  let data := mass_spectrum_data (master a) in
  let w := mass_window (settings a) in
  StronglySorted Qlt (map fst data) -> data <> [] -> isotopes a <> [] ->
  exists (i : Isotope) (left_border right_border : nat),
    In i (isotopes a)
    /\ (forall j, In j (isotopes a) -> fraction j <= fraction i)
    /\ ((left_border <= length data)%nat
        /\ (forall j, (j < left_border)%nat -> mass_at data j < exact_mass i - w)
        /\ (forall j, (left_border <= j < length data)%nat ->
                      exact_mass i - w <= mass_at data j))
    /\ ((right_border <= length data)%nat
        /\ (forall j, (j < right_border)%nat -> mass_at data j <= exact_mass i + w)
        /\ (forall j, (right_border <= j < length data)%nat ->
                      exact_mass i + w < mass_at data j))
    /\ inherit_data_subset a
       = Ok (set_data_subset a (slice data left_border right_border))
    /\ slice data left_border right_border
       = List.filter (in_window (exact_mass i) w) data.
Proof.
  intros data w Hs Hdata Hiso. apply Qlt_sorted_Qle in Hs.
  destruct (inherit_data_subset_spec a Hs Hdata Hiso) as (i & Hi & Hbest & Hrun).
  fold data w in Hrun.
  exists i, (bisect_left (map fst data) (exact_mass i - w)),
            (bisect_right (map fst data) (exact_mass i + w)).
  pose proof (bisect_left_spec (map fst data) (exact_mass i - w) Hs) as Hl.
  pose proof (bisect_right_spec (map fst data) (exact_mass i + w) Hs) as Hr.
  rewrite length_map in Hl, Hr. unfold mass_at.
  split; [exact Hi |]. split; [exact Hbest |].
  split; [exact Hl |]. split; [exact Hr |].
  split; [exact Hrun | apply window_slice, Hs].
Qed.


Lemma inherit_data_subset_window_witness :
  inherit_data_subset (analyte_at 101 sample_spectrum)
  = Ok (set_data_subset (analyte_at 101 sample_spectrum)
          [(100, 10); (101, 20); (102, 30)]).
Proof.
  assert (StronglySorted Qlt
            (map fst (mass_spectrum_data (master (analyte_at 101 sample_spectrum)))))
    as Hs by (repeat constructor; unfold Qlt; simpl; lia).
  assert (mass_spectrum_data (master (analyte_at 101 sample_spectrum)) <> [])
    as Hdata by discriminate.
  assert (isotopes (analyte_at 101 sample_spectrum) <> []) as Hiso by discriminate.
  destruct (inherit_data_subset_window (analyte_at 101 sample_spectrum) Hs Hdata Hiso)
    as (i & l & r & Hi & _ & _ & _ & Hrun & Hfilter).
  rewrite Hrun, Hfilter.
  destruct Hi as [<- | []]. reflexivity.
Defined.


(** ** Results *)

Lemma bind_ok {A B : Type} (r : result A) (k : A -> result B) (b : B) :
  bind r k = Ok b -> exists a, r = Ok a /\ k a = Ok b.
Proof. destruct r as [a | e]; simpl; [eauto | discriminate]. Qed.

Lemma for_each_invariant {A S : Type} (P : S -> Prop) (body : S -> A -> result S)
    (l : list A) :
  (forall s x s', In x l -> body s x = Ok s' -> P s -> P s') ->
  forall s s', for_each body l s = Ok s' -> P s -> P s'.
Proof.
  induction l as [| x l IH]; intros Hbody s s' Hrun Hs; simpl in Hrun.
  - injection Hrun as <-. exact Hs.
  - apply bind_ok in Hrun as (s1 & H1 & Hrun).
    apply (IH (fun s x s' Hx => Hbody s x s' (or_intror Hx)) s1 s' Hrun).
    apply (Hbody s x s1 (or_introl eq_refl) H1 Hs).
Qed.


(** ** Assignments *)

Lemma fadd_ok (a a' : Analyte) (rhs : result Q) :
  fadd a rhs = Ok a' ->
  exists m d, mass a = Some m /\ rhs = Ok d /\ a' = set_mass a (m + d).
Proof.
  unfold fadd, get_mass. destruct (mass a) as [m |]; simpl; [| discriminate].
  destruct rhs as [d | e]; simpl; [| discriminate].
  intros [= <-]. eauto.
Qed.

Lemma iadd_ok (a a' : Analyte) (k : string) (rhs : result Z) :
  iadd a k rhs = Ok a' ->
  exists v d, attrs a !! k = Some v /\ rhs = Ok d /\ a' = setattr a k (v + d)%Z.
Proof.
  unfold iadd, getattr. destruct (attrs a !! k) as [v |]; simpl; [| discriminate].
  destruct rhs as [d | e]; simpl; [| discriminate].
  intros [= <-]. eauto.
Qed.

Section Stable.
Variable P : Analyte -> Prop.
Hypothesis HP : stable P.

Lemma fadd_stable (a a' : Analyte) (rhs : result Q) :
  fadd a rhs = Ok a' -> P a -> P a'.
Proof.
  intros H Ha. apply fadd_ok in H as (m & d & _ & _ & ->). apply HP, Ha.
Qed.

Lemma iadd_stable (a a' : Analyte) (k : string) (rhs : result Z) :
  In k modified_keys -> iadd a k rhs = Ok a' -> P a -> P a'.
Proof.
  intros Hk H Ha. apply iadd_ok in H as (v & d & _ & _ & ->).
  apply HP; assumption.
Qed.

Ltac step_stable :=
  repeat match goal with
  | H : bind _ _ = Ok _ |- _ => apply bind_ok in H as (? & ? & ?)
  | H : fadd ?a _ = Ok ?b, Ha : P ?a |- _ =>
      apply (fadd_stable a b _ H) in Ha; clear H
  | H : iadd ?a ?k _ = Ok ?b, Ha : P ?a |- _ =>
      apply (iadd_stable a b k _ ltac:(unfold modified_keys; simpl; tauto) H) in Ha;
      clear H
  end.

Lemma add_unit_stable units index unit b (a a' : Analyte) :
  add_unit units index unit b a = Ok a' -> P a -> P a'.
Proof.
  unfold add_unit. intros H Ha. step_stable.
  destruct (String.eqb unit "S").
  - step_stable. assumption.
  - congruence.
Qed.

Lemma determine_stable (a a' : Analyte) :
  determine_total_number_of_elements a = Ok a' -> P a -> P a'.
Proof.
  unfold determine_total_number_of_elements.
  apply for_each_invariant. intros s [i u] s' _ Hstep Hs.
  unfold unit_step in Hstep. simpl in Hstep.
  destruct (building_blocks s !! u) as [b |].
  - eapply add_unit_stable; eassumption.
  - congruence.
Qed.

Lemma independent_step_stable (a a' : Analyte) (modifier : string) :
  independent_step a modifier = Ok a' -> P a -> P a'.
Proof.
  unfold independent_step. intros H Ha.
  destruct (negb (String.eqb modifier "Per")).
  - step_stable. assumption.
  - congruence.
Qed.


End Stable.

(** ** Permethylation *)

Lemma lacks_stable : stable lacks_total_number_of_units.
Proof.
  unfold lacks_total_number_of_units. split.
  - intros a m Ha. exact Ha.
  - intros a k v Hk Ha. simpl. rewrite lookup_insert_ne; [exact Ha |].
    unfold modified_keys in Hk. simpl in Hk.
    intuition (subst; discriminate).
Qed.

Lemma lacks_reset (a : Analyte) :
  lacks_total_number_of_units a -> lacks_total_number_of_units (reset a).
Proof.
  unfold lacks_total_number_of_units, reset. simpl. intros Ha.
  rewrite !lookup_insert_ne by discriminate. exact Ha.
Qed.

Lemma dependent_loop_raises (l : list string) (a : Analyte) :
  In "Per"%string l -> lacks_total_number_of_units a ->
  exists e, for_each dependent_step l a = Err e.
Proof.
  intros Hin Ha. induction l as [| x l IH]; [destruct Hin |].
  cbn [for_each]. unfold dependent_step at 1.
  destruct (String.eqb x "Per") eqn:E.
  - unfold getattr. destruct (attrs a !! "number_oxygens"%string); cbn [bind];
      [| eauto].
    rewrite Ha. cbn [bind]. eauto.
  - cbn [bind]. apply IH. destruct Hin as [-> | Hin]; [| exact Hin].
    rewrite String.eqb_refl in E. discriminate.
Qed.

(** C1: with ["Per"] among the configured modifiers the site count is never
    computed: the second pass reads [self.total_number_of_units], an
    attribute that no method assigns ([calculate_isotopes] creates
    [total_number_units]), and the call raises. *)
Theorem permethylation_raises (a : Analyte) :
  lacks_total_number_of_units a ->
  In "Per"%string (mass_modifiers (settings a) ++ [charge_carrier (settings a)]) ->
  exists e, calculate_isotopes a = Err e.
Proof.
  intros Ha Hper. unfold calculate_isotopes.
  destruct (determine_total_number_of_elements (reset a)) as [b | e] eqn:Hb;
    cbn [bind]; [| eauto].
  assert (lacks_total_number_of_units b) as Hlb
      by (eapply determine_stable; [apply lacks_stable | exact Hb | apply lacks_reset, Ha]).
  assert (settings b = settings a) as Hsb.
  { apply (determine_stable (fun x => settings x = settings a)) in Hb;
      [exact Hb | split; intros; assumption | reflexivity]. }
  unfold attach_mass_modifiers. rewrite Hsb.
  destruct (for_each independent_step _ b) as [c | e] eqn:Hc; cbn [bind]; [| eauto].
  assert (lacks_total_number_of_units c) as Hlc.
  { apply (for_each_invariant lacks_total_number_of_units independent_step _
             (fun s x s' _ => independent_step_stable _ lacks_stable s s' x) b c Hc Hlb). }
  destruct (dependent_loop_raises _ c Hper Hlc) as [e ->]. cbn [bind]. eauto.
Qed.

Lemma permethylation_raises_witness :
  exists e, calculate_isotopes (Analyte_init permethylated_master) = Err e.
Proof.
  apply (permethylation_raises (Analyte_init permethylated_master)).
  - reflexivity.
  - simpl. tauto.
Defined.

(** The failing input, evaluated: after the first pass there are four units,
    ten oxygens and no sialic acid; the second pass raises. *)
Example permethylation_attribute_error :
  (do a <- determine_total_number_of_elements (reset (Analyte_init permethylated_master));
   do a <- for_each independent_step ["ox"; "Per"; "proton"]%string a;
   Ok (attrs a !! "total_number_units"%string, attrs a !! "number_oxygens"%string,
       attrs a !! "number_sialic_acids"%string))
  = Ok (Some 4%Z, Some 10%Z, Some 0%Z)
  /\ calculate_isotopes (Analyte_init permethylated_master)
     = Err (AttributeError "total_number_of_units").
Proof. split; vm_compute; reflexivity. Qed.

(** Were the attribute there, the pass would scale the block as intended. *)
Lemma dependent_step_sites (a : Analyte) (b : Block) (o u s c h : Z) (m : Q) :
  attrs a !! "number_oxygens"%string = Some o ->
  attrs a !! "total_number_of_units"%string = Some u ->
  attrs a !! "number_sialic_acids"%string = Some s ->
  attrs a !! "number_carbons"%string = Some c ->
  attrs a !! "number_hydrogens"%string = Some h ->
  mass a = Some m ->
  building_blocks a !! "Per"%string = Some b ->
  let number_sites := (o - (u * 2 - 2) - 1 - 1 * s)%Z in
  dependent_step a "Per"
  = Ok (set_mass
          (setattr (setattr a "number_carbons" (c + block_carbons b * number_sites))
                   "number_hydrogens" (h + block_hydrogens b * number_sites * 2))
          (m + block_mass b * inject_Z number_sites)).
Proof.
  intros Ho Hu Hs Hc Hh Hm Hb number_sites.
  unfold dependent_step, iadd, fadd, getattr, get_mass, block_of. simpl.
  rewrite Ho, Hu, Hs, Hc, Hb. simpl.
  rewrite lookup_insert_ne by discriminate. rewrite Hh. simpl.
  rewrite Hb. simpl. rewrite Hm, Hb. reflexivity.
Qed.

(** ** Name parsing *)






Lemma has_counters_stable : stable has_counters.
Proof.
  unfold has_counters. split.
  - intros a m [_ Ha]. split; [discriminate | exact Ha].
  - intros a k v _ [Hm Ha]. split; [exact Hm |]. intros k' Hk'. simpl.
    rewrite lookup_insert. destruct (decide (k = k')); [discriminate | apply Ha, Hk'].
Qed.







(** ** Repeated calls of [calculate_isotopes] *)







Section Set_isotopes.
Variable l : list Isotope.








End Set_isotopes.






Example calculate_isotopes_twice :
  map_result (fun a => map (fun i => (Qred (exact_mass i), Qred (fraction i))) (isotopes a))
    (repeat_calculate_isotopes 2 (Analyte_init (small_master "X1" (1 # 100) (95 # 100))))
  = Ok [(201 # 2, 6159879150789 # 6250000000000);
        (201 # 2, 6159879150789 # 6250000000000)].
Proof. vm_compute. reflexivity. Qed.

(** ** The envelope of an empty composition *)

Lemma envelope_totals_zero (m : Q) :
  exists d, envelope_totals m 0 0 0 0 0 = [d] /\ fst d == m /\ snd d == 1.
Proof.
  eexists. split; [reflexivity |]. cbn [fst snd]. split.
  - change (inject_Z (Z.of_nat 0)) with 0. ring.
  - reflexivity.
Qed.

Lemma merge_singleton (eps : Q) (d : point) :
  ~ snd d == 0 -> exists c, merge eps [d] = Ok [c] /\ point_eq d c.
Proof.
  intros Hnz. rewrite merge_eq_merge_by_used.
  unfold merge_by_used, merge_step_by_used. cbn [for_each is_used existsb].
  cbn [bind List.filter]. unfold is_used. cbn [existsb].
  rewrite point_eqb_refl. cbn [orb negb absorbed List.filter].
  pose proof (singleton_cluster d Hnz) as Hc.
  match goal with
  | |- context [Qeq_bool ?x 0] => destruct (Qeq_bool x 0) eqn:E
  end.
  - apply Qeq_bool_iff in E. destruct Hc as [_ Hc]. cbn [snd] in Hc.
    rewrite <- Hc in E. contradiction.
  - cbn [bind snd app]. eexists. split; [reflexivity | exact Hc].
Qed.

Lemma envelope_singleton (s : Settings) (d : point) :
  ~ snd d == 0 -> exists c, envelope s [d] = Ok [c] /\ point_eq d c.
Proof.
  intros Hnz. destruct (merge_singleton (epsilon s) d Hnz) as (c & Hm & Hc).
  unfold envelope. rewrite Hm. cbn [bind sorted_by_probability_desc fold_right insert_desc].
  exists c. split; [| exact Hc].
  cbn [truncate app]. destruct (Qlt_bool _ _); reflexivity.
Qed.

(** C8: there is no guard for an empty composition: with all five elemental
    counts at zero the envelope calculation returns normally and appends one
    isotope, of the accumulated mass and of fraction 1. *)
Theorem empty_composition_envelope (a : Analyte) (m : Q) :
  mass a = Some m ->
  (forall k, In k ["number_carbons"; "number_hydrogens"; "number_nitrogens";
                   "number_oxygens"; "number_sulfurs"]%string ->
             attrs a !! k = Some 0%Z) ->
  exists r : Isotope,
    calculate_analyte_isotopic_pattern a = Ok (set_isotopes a (isotopes a ++ [r]))
    /\ exact_mass r == m
    /\ fraction r == 1.
Proof.
  intros Hm Hzero.
  destruct (envelope_totals_zero m) as (d & Hd & Hd1 & Hd2).
  destruct (envelope_singleton (settings a) d) as (c & Hc & [Hc1 Hc2]).
  { rewrite Hd2. discriminate. }
  exists (to_isotope c). split; [| split].
  - unfold calculate_analyte_isotopic_pattern, getattr, get_mass.
    rewrite !Hzero by (simpl; tauto). cbn [bind].
    destruct (envelope_totals_zero 0) as (d0 & -> & _).
    rewrite Hm. cbn [bind]. rewrite Hd, Hc. reflexivity.
  - simpl. rewrite <- Hc1. exact Hd1.
  - simpl. rewrite <- Hc2. exact Hd2.
Qed.

Lemma empty_composition_envelope_witness :
  exists r : Isotope,
    calculate_analyte_isotopic_pattern (set_mass (named_analyte "") 5)
    = Ok (set_isotopes (set_mass (named_analyte "") 5)
            (isotopes (set_mass (named_analyte "") 5) ++ [r]))
    /\ exact_mass r == 5
    /\ fraction r == 1.
Proof.
  apply (empty_composition_envelope (set_mass (named_analyte "") 5) 5).
  - reflexivity.
  - intros k Hk. simpl in Hk.
    repeat (destruct Hk as [<- | Hk]; [vm_compute; reflexivity |]). destruct Hk.
Defined.

(** C8, as stated, fails: a name without a known unit and a charge carrier
    without atoms leave every count at zero, and the call returns the
    single-point distribution. *)
Lemma empty_composition_returns :
  map_result
    (fun a => (attrs a !! "number_carbons"%string, attrs a !! "number_hydrogens"%string,
               attrs a !! "number_nitrogens"%string, attrs a !! "number_oxygens"%string,
               attrs a !! "number_sulfurs"%string,
               map (fun i => (Qred (exact_mass i), Qred (fraction i))) (isotopes a)))
    (calculate_isotopes (Analyte_init (small_master "Z1" (1 # 100) (95 # 100))))
  = Ok (Some 0%Z, Some 0%Z, Some 0%Z, Some 0%Z, Some 0%Z, [(1 # 2, 1)]).
Proof. vm_compute. reflexivity. Qed.

(** ** The merge step, cluster by cluster *)

Lemma for_each_merge_clusters (eps : Q) (totals l used res : list point)
    (st : list point * list point) :
  for_each (merge_step_by_used eps totals) l (used, res) = Ok st ->
  snd st = res ++ map cluster_point (clusters_by_used eps totals l used).
Proof.
  revert used res. induction l as [| d l IH]; intros used res Hrun.
  - simpl in Hrun. injection Hrun as <-. simpl. rewrite app_nil_r. reflexivity.
  - cbn [for_each] in Hrun. apply bind_ok in Hrun as ([used1 res1] & Hstep & Hrun).
    cbn [clusters_by_used]. unfold merge_step_by_used in Hstep.
    destruct (is_used used d).
    + injection Hstep as <- <-. apply IH, Hrun.
    + destruct (Qeq_bool _ 0); [discriminate |].
      injection Hstep as <- <-. rewrite (IH _ _ Hrun).
      cbn [map]. rewrite <- app_assoc. reflexivity.
Qed.

Lemma merge_clusters_spec (eps : Q) (totals clusters : list point) :
  merge eps totals = Ok clusters ->
  clusters = map cluster_point (merge_clusters eps totals).
Proof.
  rewrite merge_eq_merge_by_used. unfold merge_by_used. intros Hrun.
  apply bind_ok in Hrun as (st & Hrun & Hst). injection Hst as <-.
  apply (for_each_merge_clusters eps totals totals [] [] st Hrun).
Qed.

Lemma for_each_merge_returns (eps : Q) (totals l used res : list point) :
  Forall (fun c => ~ snd (cluster_point c) == 0) (clusters_by_used eps totals l used) ->
  exists st, for_each (merge_step_by_used eps totals) l (used, res) = Ok st.
Proof.
  revert used res. induction l as [| d l IH]; intros used res Hnz.
  - simpl. eauto.
  - cbn [for_each]. cbn [clusters_by_used] in Hnz. unfold merge_step_by_used at 1.
    destruct (is_used used d).
    + cbn [bind]. apply IH, Hnz.
    + inversion Hnz as [| c cs Hc Hcs]; subst.
      match goal with
      | |- context [Qeq_bool ?x 0] => destruct (Qeq_bool x 0) eqn:E
      end.
      * apply Qeq_bool_iff in E. elim Hc. exact E.
      * cbn [bind]. apply IH, Hcs.
Qed.

(** ** Probability accounting *)

Lemma sum_map_snd_eq (l l' : list point) :
  Forall2 point_eq l l' -> sum (map snd l) == sum (map snd l').
Proof.
  induction 1 as [| d e l l' [_ Hde] _ IH]; simpl.
  - reflexivity.
  - rewrite !sum_cons, IH, Hde. reflexivity.
Qed.

Lemma sum_nonneg (l : list Q) : Forall (fun x => 0 <= x) l -> 0 <= sum l.
Proof.
  induction 1 as [| x l Hx _ IH].
  - rewrite sum_nil. lra.
  - rewrite sum_cons. lra.
Qed.

Lemma wsum_cons (f : point -> bool) (x : point) (l : list point) :
  wsum f (x :: l) == (if f x then snd x else 0) + wsum f l.
Proof. unfold wsum. cbn [map]. apply sum_cons. Qed.

Lemma wsum_filter (f : point -> bool) (l : list point) :
  sum (map snd (List.filter f l)) == wsum f l.
Proof.
  induction l as [| x l IH]; cbn [List.filter].
  - reflexivity.
  - rewrite wsum_cons. destruct (f x); cbn [map].
    + rewrite sum_cons, IH. reflexivity.
    + rewrite IH. lra.
Qed.

Lemma wsum_le_total (f : point -> bool) (l : list point) :
  Forall (fun d => 0 < snd d) l -> wsum f l <= sum (map snd l).
Proof.
  induction 1 as [| x l Hx _ IH].
  - unfold wsum, sum. simpl. lra.
  - rewrite wsum_cons. cbn [map]. rewrite sum_cons. destruct (f x); lra.
Qed.

(** Three disjoint parts of a set weigh no more than the set. *)
Lemma wsum_three_parts (f g h1 h2 : point -> bool) (l : list point) :
  Forall (fun d => 0 < snd d) l ->
  (forall x, In x l -> g x = true -> f x = true /\ h1 x = false /\ h2 x = false) ->
  (forall x, In x l -> h1 x = true -> f x = true /\ h2 x = false) ->
  (forall x, In x l -> h2 x = true -> f x = true) ->
  wsum g l + wsum h1 l + wsum h2 l <= wsum f l.
Proof.
  intros Hpos. induction Hpos as [| x l Hx _ IH]; intros Hg Hh1 Hh2.
  - unfold wsum, sum. simpl. lra.
  - rewrite !wsum_cons.
    assert (wsum g l + wsum h1 l + wsum h2 l <= wsum f l) as Hl.
    { apply IH; intros y Hy; [apply Hg | apply Hh1 | apply Hh2]; right; exact Hy. }
    specialize (Hg x (or_introl eq_refl)).
    specialize (Hh1 x (or_introl eq_refl)).
    specialize (Hh2 x (or_introl eq_refl)).
    destruct (g x), (h1 x), (h2 x), (f x);
      try (specialize (Hg eq_refl); destruct Hg as (? & ? & ?));
      try (specialize (Hh1 eq_refl); destruct Hh1 as (? & ?));
      try specialize (Hh2 eq_refl);
      try discriminate; lra.
Qed.

(** The occurrences of one pair weigh as many times its probability. *)
Lemma wsum_occurrences (d : point) (l : list point) :
  wsum (point_eqb d) l == inject_Z (Z.of_nat (occurrences d l)) * snd d.
Proof.
  unfold occurrences. induction l as [| x l IH]; cbn [List.filter].
  - unfold wsum, sum. cbn [map fold_left length Z.of_nat].
    change (inject_Z 0) with 0. ring.
  - rewrite wsum_cons, IH. destruct (point_eqb d x) eqn:E.
    + apply point_eqb_iff in E as [_ E]. cbn [length].
      rewrite Nat2Z.inj_succ, <- Z.add_1_r, inject_Z_plus, E. ring.
    + lra.
Qed.

Lemma is_used_congr (used : list point) (d e : point) :
  point_eqb d e = true -> is_used used d = is_used used e.
Proof.
  intros Hde. unfold is_used. induction used as [| u used IH]; simpl.
  - reflexivity.
  - rewrite (point_eqb_congr d e u Hde), IH. reflexivity.
Qed.

Lemma is_used_In (used : list point) (d : point) : In d used -> is_used used d = true.
Proof. apply existsb_point_eqb_In. Qed.

Lemma cluster_probability (d : point) (members : list point) :
  snd (cluster_point (d, members)) == snd d + sum (map snd members).
Proof. unfold cluster_point, cluster_values. cbn [fst snd app]. apply sum_cons. Qed.

(** One round of the merge: the probability of the new cluster, and one more
    time the probability of the seed for each further occurrence of it, is
    probability that becomes used. *)
Lemma merge_round_accounting (eps : Q) (totals used : list point) (d : point) :
  Forall (fun x => 0 < snd x) totals ->
  In d totals -> is_used used d = false ->
  let members := absorbed eps (fst d)
                   (List.filter (fun e => negb (is_used (d :: used) e)) totals) in
  wsum (is_used used) totals
  + inject_Z (Z.of_nat (occurrences d totals)) * snd d
  + sum (map snd members)
  <= wsum (is_used (rev members ++ d :: used)) totals.
Proof.
  intros Hpos Hd Hunused members.
  rewrite <- wsum_occurrences.
  assert (sum (map snd members)
          == wsum (fun e => negb (is_used (d :: used) e)
                            && Qlt_bool (Qabs (fst d - fst e)) eps) totals) as ->.
  { unfold members, absorbed. rewrite wsum_filter.
    rewrite <- !wsum_filter.
    assert (forall (f g : point -> bool) (l : list point),
               List.filter g (List.filter f l) = List.filter (fun e => f e && g e) l)
      as Hff.
    { intros f g l. induction l as [| y l IHl]; cbn [List.filter]; [reflexivity |].
      destruct (f y); cbn [List.filter andb]; [destruct (g y) |]; rewrite IHl;
        reflexivity. }
    rewrite Hff. reflexivity. }
  apply wsum_three_parts; [exact Hpos | | |].
  - intros x Hx Hu. split; [| split].
    + unfold is_used in *. rewrite existsb_app. cbn [existsb].
      rewrite Hu, !orb_true_r. reflexivity.
    + destruct (point_eqb d x) eqn:E; [| reflexivity].
      rewrite (is_used_congr used d x E) in Hunused. congruence.
    + unfold is_used in *. cbn [existsb]. rewrite Hu, orb_true_r. reflexivity.
  - intros x Hx Hdx. split.
    + unfold is_used. rewrite existsb_app. cbn [existsb].
      rewrite (point_eqb_sym x d), Hdx, orb_true_r. reflexivity.
    + unfold is_used. cbn [existsb]. rewrite (point_eqb_sym x d), Hdx. reflexivity.
  - intros x Hx Hmem. apply andb_true_iff in Hmem as [Hrest Hnear].
    unfold is_used at 1. rewrite existsb_app, existsb_rev_eq.
    assert (In x members) as Hin.
    { unfold members, absorbed. apply filter_In. split; [| exact Hnear].
      apply filter_In. split; [exact Hx | exact Hrest]. }
    rewrite (existsb_point_eqb_In x members Hin). reflexivity.
Qed.

Lemma occurrences_pos (d : point) (l : list point) :
  In d l -> 1 <= inject_Z (Z.of_nat (occurrences d l)).
Proof.
  intros Hin. unfold occurrences.
  assert (In d (List.filter (point_eqb d) l)) as Hd
      by (apply filter_In; split; [exact Hin | apply point_eqb_refl]).
  destruct (List.filter (point_eqb d) l) as [| x r]; [destruct Hd |].
  cbn [length]. change 1 with (inject_Z 1). rewrite <- Zle_Qle. lia.
Qed.

Lemma occurrences_twice (d : point) (l : list point) :
  (2 <= occurrences d l)%nat -> 2 <= inject_Z (Z.of_nat (occurrences d l)).
Proof.
  intros H. change 2 with (inject_Z 2). rewrite <- Zle_Qle. lia.
Qed.

Lemma clusters_seeds (eps : Q) (totals l used : list point) :
  incl l totals ->
  Forall (fun c => In (fst c) totals) (clusters_by_used eps totals l used).
Proof.
  revert used. induction l as [| d l IH]; intros used Hincl; cbn [clusters_by_used].
  - constructor.
  - assert (incl l totals) as Hl by (intros x Hx; apply Hincl; right; exact Hx).
    destruct (is_used used d); [apply IH, Hl |].
    constructor; [apply Hincl; left; reflexivity | apply IH, Hl].
Qed.

(** The clusters never hold more probability than the points that are not
    yet used, and less when a seed occurs more than once. *)
Lemma clusters_accounting (eps : Q) (totals l used : list point) :
  Forall (fun x => 0 < snd x) totals -> incl l totals ->
  let cs := clusters_by_used eps totals l used in
  sum (map snd (map cluster_point cs)) + wsum (is_used used) totals
  <= sum (map snd totals)
  /\ (Exists (fun c => (2 <= occurrences (fst c) totals)%nat) cs ->
      sum (map snd (map cluster_point cs)) + wsum (is_used used) totals
      < sum (map snd totals)).
Proof.
  intros Hpos. revert used. induction l as [| d l IH]; intros used Hincl;
    cbn [clusters_by_used].
  - cbn [map]. rewrite sum_nil. pose proof (wsum_le_total (is_used used) totals Hpos).
    split; [lra | intros HE; inversion HE].
  - assert (incl l totals) as Hl by (intros x Hx; apply Hincl; right; exact Hx).
    assert (In d totals) as Hd by (apply Hincl; left; reflexivity).
    destruct (is_used used d) eqn:Eu; [apply IH, Hl |].
    set (members := absorbed eps (fst d)
                      (List.filter (fun e => negb (is_used (d :: used) e)) totals)).
    destruct (IH (rev members ++ d :: used) Hl) as [IHle IHlt].
    pose proof (merge_round_accounting eps totals used d Hpos Hd Eu) as Hround.
    fold members in Hround. cbv zeta in Hround.
    pose proof (occurrences_pos d totals Hd) as Hocc.
    assert (0 < snd d) as Hdpos
        by (rewrite List.Forall_forall in Hpos; apply Hpos, Hd).
    cbn [map]. rewrite sum_cons, cluster_probability.
    split.
    + nra.
    + intros HE. inversion HE as [c cs Hc | c cs Hcs]; subst.
      * cbn [fst] in Hc. pose proof (occurrences_twice d totals Hc). nra.
      * specialize (IHlt Hcs). nra.
Qed.

Lemma first_occurrences_sum_le (seen l : list point) :
  Forall (fun x => 0 < snd x) l ->
  sum (map snd (first_occurrences seen l)) <= sum (map snd l).
Proof.
  revert seen. induction l as [| d l IH]; intros seen Hpos.
  - simpl. lra.
  - inversion Hpos as [| ? ? Hd Hl]; subst.
    cbn [first_occurrences map]. rewrite sum_cons.
    destruct (is_used seen d).
    + specialize (IH seen Hl). lra.
    + cbn [map]. rewrite sum_cons. apply Qplus_le_r, IH, Hl.
Qed.

Lemma existsb_is_used_cons (d : point) (seen l : list point) :
  existsb (is_used (d :: seen)) l
  = existsb (point_eqb d) l || existsb (is_used seen) l.
Proof.
  induction l as [| x l IHl]; [reflexivity |].
  cbn [existsb]. rewrite IHl. unfold is_used at 1. cbn [existsb].
  fold (is_used seen x). rewrite (point_eqb_sym x d).
  destruct (point_eqb d x), (is_used seen x), (existsb (point_eqb d) l);
    reflexivity.
Qed.

Lemma first_occurrences_sum_lt (seen l : list point) :
  Forall (fun x => 0 < snd x) l ->
  existsb (is_used seen) l || has_duplicate l = true ->
  sum (map snd (first_occurrences seen l)) < sum (map snd l).
Proof.
  revert seen. induction l as [| d l IH]; intros seen Hpos Hdup.
  - discriminate.
  - inversion Hpos as [| ? ? Hd Hl]; subst.
    cbn [first_occurrences map]. rewrite sum_cons.
    destruct (is_used seen d) eqn:Eu.
    + pose proof (first_occurrences_sum_le seen l Hl). lra.
    + cbn [map]. rewrite sum_cons. apply Qplus_lt_r. apply (IH _ Hl).
      cbn [existsb has_duplicate] in Hdup. rewrite Eu in Hdup.
      cbn [orb] in Hdup. rewrite existsb_is_used_cons.
      destruct (existsb (is_used seen) l), (existsb (point_eqb d) l),
        (has_duplicate l); try reflexivity; discriminate.
Qed.

(** X1: [newdata] is keyed by the [(mass, probability)] value.  A pair that
    starts a cluster marks all its occurrences used, so the further ones are
    dropped; the occurrences that another seed absorbs are all added to that
    cluster.  With positive probabilities the clusters therefore never hold
    more than the enumerated probability, they hold less when some seed
    occurs more than once, and with a tolerance of 0 or below (where every
    first occurrence is a seed) whenever a pair occurs more than once. *)
Theorem merge_duplicates (eps : Q) (totals clusters : list point) :
  Forall (fun d => 0 < snd d) totals ->
  merge eps totals = Ok clusters ->
  sum (map snd clusters) <= sum (map snd totals)
  /\ (Exists (fun c => (2 <= occurrences (fst c) totals)%nat) (merge_clusters eps totals) ->
      sum (map snd clusters) < sum (map snd totals))
  /\ (eps <= 0 -> has_duplicate totals = true ->
      sum (map snd clusters) < sum (map snd totals)).
Proof.
  intros Hpos Hrun.
  pose proof (merge_clusters_spec eps totals clusters Hrun) as Hcs.
  destruct (clusters_accounting eps totals totals [] Hpos (incl_refl _)) as [Hle Hlt].
  fold (merge_clusters eps totals) in Hle, Hlt. rewrite <- Hcs in Hle, Hlt.
  assert (wsum (is_used []) totals == 0) as Hw.
  { clear. unfold wsum. induction totals as [| x l IH]; [reflexivity |].
    cbn [map]. rewrite sum_cons, IH. simpl. lra. }
  split; [lra |]. split.
  - intros HE. specialize (Hlt HE). lra.
  - intros Heps Hdup.
    assert (Forall (fun d => ~ snd d == 0) totals) as Hnz.
    { eapply List.Forall_impl; [| exact Hpos]. intros d Hd. simpl in Hd. lra. }
    destruct (for_each_merge_nonpositive eps totals totals [] [] Heps Hnz)
      as (used' & clusters' & Hrun' & Hall).
    rewrite merge_eq_merge_by_used in Hrun. unfold merge_by_used in Hrun.
    rewrite Hrun' in Hrun. simpl in Hrun. injection Hrun as <-.
    rewrite <- (sum_map_snd_eq _ _ Hall).
    apply first_occurrences_sum_lt; [exact Hpos |].
    rewrite Hdup. apply orb_true_r.
Qed.

Lemma merge_duplicates_witness :
  sum (map snd [(2 # 2, 1 # 2)]) <= sum (map snd twice_the_same)
  /\ (Exists (fun c => (2 <= occurrences (fst c) twice_the_same)%nat)
        (merge_clusters 0 twice_the_same) ->
      sum (map snd [(2 # 2, 1 # 2)]) < sum (map snd twice_the_same))
  /\ (0 <= 0 -> has_duplicate twice_the_same = true ->
      sum (map snd [(2 # 2, 1 # 2)]) < sum (map snd twice_the_same)).
Proof.
  apply (merge_duplicates 0 twice_the_same [(2 # 2, 1 # 2)]).
  - repeat constructor; unfold Qlt; simpl; lia.
  - vm_compute. reflexivity.
Defined.

(** A pair that occurs twice need not lose probability: [(100, 1/4)] occurs
    twice, the seed [(100, 1/2)] absorbs both occurrences, and the one
    cluster holds all of the enumerated probability. *)
Lemma merge_duplicates_absorbed :
  has_duplicate [(100, 1 # 2); (100, 1 # 4); (100, 1 # 4)] = true
  /\ exists clusters,
       merge 1 [(100, 1 # 2); (100, 1 # 4); (100, 1 # 4)] = Ok clusters
       /\ ~ sum (map snd clusters)
            < sum (map snd [(100, 1 # 2); (100, 1 # 4); (100, 1 # 4)]).
Proof.
  split; [reflexivity |]. eexists. split; [vm_compute; reflexivity |].
  unfold Qlt. vm_compute. discriminate.
Qed.

(** ** When the merge step raises *)

Lemma for_each_merge_raises (eps : Q) (totals l used res : list point) :
  Exists (fun c => snd (cluster_point c) == 0) (clusters_by_used eps totals l used) ->
  for_each (merge_step_by_used eps totals) l (used, res) = Err ZeroDivisionError.
Proof.
  revert used res. induction l as [| d l IH]; intros used res Hz;
    cbn [clusters_by_used] in Hz.
  - inversion Hz.
  - cbn [for_each]. unfold merge_step_by_used at 1.
    destruct (is_used used d).
    + cbn [bind]. apply IH, Hz.
    + match goal with
      | |- context [Qeq_bool ?x 0] => destruct (Qeq_bool x 0) eqn:E
      end.
      * reflexivity.
      * cbn [bind]. inversion Hz as [c cs Hc | c cs Hcs]; subst.
        -- apply Qeq_bool_neq in E. elim E. exact Hc.
        -- apply IH, Hcs.
Qed.

Lemma Forall_or_Exists_zero (cs : list (point * list point)) :
  Forall (fun c => ~ snd (cluster_point c) == 0) cs
  \/ Exists (fun c => snd (cluster_point c) == 0) cs.
Proof.
  induction cs as [| c cs [IH | IH]].
  - left. constructor.
  - destruct (Qeq_dec (snd (cluster_point c)) 0) as [Hz | Hnz].
    + right. left. exact Hz.
    + left. constructor; assumption.
  - right. right. exact IH.
Qed.

(** X2: the merge step has two outcomes.  Either no cluster has a total
    probability of zero, and it returns the clusters; or some cluster has,
    and the division for the cluster mass raises [ZeroDivisionError].  No
    lookup in [newdata] ever raises. *)
Theorem merge_outcome (eps : Q) (totals : list point) :
  (Forall (fun c => ~ snd (cluster_point c) == 0) (merge_clusters eps totals)
   /\ merge eps totals = Ok (map cluster_point (merge_clusters eps totals)))
  \/ (Exists (fun c => snd (cluster_point c) == 0) (merge_clusters eps totals)
      /\ merge eps totals = Err ZeroDivisionError).
Proof.
  rewrite merge_eq_merge_by_used. unfold merge_by_used, merge_clusters.
  destruct (Forall_or_Exists_zero (clusters_by_used eps totals totals []))
    as [Hnz | Hz].
  - left. split; [exact Hnz |].
    destruct (for_each_merge_returns eps totals totals [] [] Hnz) as [st Hrun].
    rewrite Hrun. cbn [bind].
    rewrite (for_each_merge_clusters eps totals totals [] [] st Hrun). reflexivity.
  - right. split; [exact Hz |].
    rewrite (for_each_merge_raises eps totals totals [] [] Hz). reflexivity.
Qed.

Lemma absorbed_incl (eps k : Q) (rest : list point) : incl (absorbed eps k rest) rest.
Proof. intros x Hx. unfold absorbed in Hx. apply filter_In in Hx. tauto. Qed.

Lemma clusters_members (eps : Q) (totals l used : list point) :
  Forall (fun c => incl (snd c) totals) (clusters_by_used eps totals l used).
Proof.
  revert used. induction l as [| d l IH]; intros used; cbn [clusters_by_used].
  - constructor.
  - destruct (is_used used d); [apply IH |].
    constructor; [| apply IH]. cbn [snd]. intros x Hx.
    apply absorbed_incl, filter_In in Hx. tauto.
Qed.

Lemma sum_map_snd_nonneg (l : list point) :
  Forall (fun d => 0 < snd d) l -> 0 <= sum (map snd l).
Proof.
  induction 1 as [| d l Hd _ IH]; cbn [map].
  - rewrite sum_nil. lra.
  - rewrite sum_cons. lra.
Qed.

Lemma cluster_probability_pos (totals : list point) (c : point * list point) :
  Forall (fun d => 0 < snd d) totals ->
  In (fst c) totals -> incl (snd c) totals ->
  0 < snd (cluster_point c).
Proof.
  intros Hpos Hseed Hmem. destruct c as [d members]. cbn [fst snd] in Hseed, Hmem.
  rewrite cluster_probability.
  rewrite List.Forall_forall in Hpos.
  assert (0 <= sum (map snd members)) as Hm.
  { apply sum_map_snd_nonneg, List.Forall_forall. intros x Hx. apply Hpos, Hmem, Hx. }
  specialize (Hpos d Hseed). lra.
Qed.

(** With positive probabilities no cluster is empty of probability, and
    the merge step returns the clusters. *)
Lemma merge_positive (eps : Q) (totals : list point) :
  Forall (fun d => 0 < snd d) totals ->
  merge eps totals = Ok (map cluster_point (merge_clusters eps totals))
  /\ Forall (fun c => 0 < snd (cluster_point c)) (merge_clusters eps totals).
Proof.
  intros Hpos.
  assert (Forall (fun c => 0 < snd (cluster_point c)) (merge_clusters eps totals))
    as Hcs.
  { pose proof (clusters_seeds eps totals totals [] (incl_refl _)) as Hs.
    pose proof (clusters_members eps totals totals []) as Hm.
    unfold merge_clusters. rewrite List.Forall_forall in Hs, Hm |- *.
    intros c Hc. apply (cluster_probability_pos totals c Hpos); [apply Hs | apply Hm];
      exact Hc. }
  split; [| exact Hcs].
  rewrite merge_eq_merge_by_used. unfold merge_by_used.
  destruct (for_each_merge_returns eps totals totals [] []) as [st Hrun].
  { eapply List.Forall_impl; [| exact Hcs]. cbv beta. intros c Hc Hz. lra. }
  rewrite Hrun. cbn [bind].
  rewrite (for_each_merge_clusters eps totals totals [] [] st Hrun). reflexivity.
Qed.

Lemma merge_clusters_nonempty (eps : Q) (totals : list point) :
  totals <> [] -> map cluster_point (merge_clusters eps totals) <> [].
Proof.
  intros Hne. destruct totals as [| d totals']; [congruence |].
  unfold merge_clusters. cbn [clusters_by_used is_used existsb map]. discriminate.
Qed.

(** X3: when every enumerated combination has a positive probability the
    merge step returns; every cluster has a positive probability, and there
    is a cluster as soon as there is a combination. *)
Theorem merge_returns (eps : Q) (totals : list point) :
  Forall (fun d => 0 < snd d) totals ->
  exists clusters,
    merge eps totals = Ok clusters
    /\ Forall (fun c => 0 < snd c) clusters
    /\ (totals <> [] -> clusters <> []).
Proof.
  intros Hpos. destruct (merge_positive eps totals Hpos) as [Hrun Hcs].
  exists (map cluster_point (merge_clusters eps totals)).
  split; [exact Hrun |]. split.
  - rewrite List.Forall_map. exact Hcs.
  - apply merge_clusters_nonempty.
Qed.

Lemma merge_returns_witness :
  exists clusters,
    merge (1 # 100) twice_the_same = Ok clusters
    /\ Forall (fun c => 0 < snd c) clusters
    /\ (twice_the_same <> [] -> clusters <> []).
Proof.
  apply (merge_returns (1 # 100) twice_the_same).
  repeat constructor; unfold Qlt; simpl; lia.
Defined.

(** ** The retained clusters *)




(** ** Weighted means *)











(** ** Separation of the clusters for a positive tolerance *)







(** ** The order of the isotopes *)









(** Strictly ascending does not mean [epsilon] apart: for one carbon, one
    hydrogen and one nitrogen with a tolerance of 0.007 the second and the
    third isotope are less than 0.007 apart. *)
Example isotopes_closer_than_epsilon :
  map_result
    (fun a => match isotopes a with
              | _ :: i :: j :: _ =>
                  Qlt_bool (Qabs (exact_mass i - exact_mass j)) (epsilon (settings a))
              | _ => false
              end)
    (calculate_isotopes (Analyte_init (small_master "X1" (7 # 1000) 1)))
  = Ok true.
Proof. vm_compute. reflexivity. Qed.

(** ** When the window extraction raises *)

(** X7: [inherit_data_subset] raises exactly when the spectrum or the
    isotope list is empty, and then it raises [ValueError]; otherwise it
    returns, on any spectrum: [center_mass] is always bound, because the
    maximum of the fractions is the fraction of some isotope. *)
Theorem inherit_data_subset_outcome (a : Analyte) :
  (mass_spectrum_data (master a) = [] \/ isotopes a = [] ->
   inherit_data_subset a = Err ValueError)
  /\ (mass_spectrum_data (master a) <> [] -> isotopes a <> [] ->
      exists d, inherit_data_subset a = Ok (set_data_subset a d)).
Proof.
  split.
  - intros [Hdata | Hiso]; unfold inherit_data_subset.
    + rewrite Hdata. reflexivity.
    + destruct (mass_spectrum_data (master a)); [reflexivity |].
      cbn [bind]. rewrite Hiso. reflexivity.
  - intros Hdata Hiso. unfold inherit_data_subset.
    destruct (mass_spectrum_data (master a)) as [| p data]; [congruence |].
    cbn [bind].
    destruct (center_mass_spec (isotopes a) Hiso) as (mx & i & Hmax & Hc & _).
    rewrite Hmax. cbn [bind]. rewrite Hc. cbn [bind]. eauto.
Qed.

Lemma inherit_data_subset_outcome_witness :
  inherit_data_subset (Analyte_init permethylated_master) = Err ValueError
  /\ exists d, inherit_data_subset (analyte_at 101 sample_spectrum)
               = Ok (set_data_subset (analyte_at 101 sample_spectrum) d).
Proof.
  split.
  - apply (inherit_data_subset_outcome (Analyte_init permethylated_master)).
    right. reflexivity.
  - apply (inherit_data_subset_outcome (analyte_at 101 sample_spectrum));
      discriminate.
Defined.

Lemma fold_max_eq (l : list Q) (x m : Q) :
  In m (x :: l) -> (forall y, In y (x :: l) -> y <= m) ->
  fold_left (fun m y => if Qlt_bool m y then y else m) l x == m.
Proof.
  intros Hin Hmax. destruct (fold_max_spec l x) as [Hin' Hmax'].
  specialize (Hmax _ Hin'). specialize (Hmax' _ Hin). lra.
Qed.

Lemma find_center_mass_app (mx : Q) (l1 l2 : list Isotope) (i : Isotope) :
  fraction i == mx ->
  (forall j, In j l2 -> fraction j < mx) ->
  find_center_mass mx (l1 ++ i :: l2) = Some (exact_mass i).
Proof.
  intros Hi Hl2. unfold find_center_mass. rewrite fold_left_app. cbn [fold_left].
  assert (Qeq_bool (fraction i) mx = true) as -> by (apply Qeq_bool_iff, Hi).
  generalize (exact_mass i). clear Hi.
  induction l2 as [| j l2 IH]; intros c; cbn [fold_left]; [reflexivity |].
  assert (Qeq_bool (fraction j) mx = false) as ->.
  { destruct (Qeq_bool (fraction j) mx) eqn:E; [| reflexivity].
    apply Qeq_bool_iff in E. specialize (Hl2 j (or_introl eq_refl)). lra. }
  apply IH. intros k Hk. apply Hl2. right. exact Hk.
Qed.

(** X8: among several isotopes of maximal fraction the last one gives the
    reference mass: if no isotope before [i] has a larger fraction and every
    isotope after [i] has a smaller one, the subset is cut around
    [exact_mass i]. *)
Theorem inherit_data_subset_last_maximum (a : Analyte) (l1 l2 : list Isotope)
    (i : Isotope) :
  let data := mass_spectrum_data (master a) in
  let w := mass_window (settings a) in
  data <> [] ->
  isotopes a = l1 ++ i :: l2 ->
  (forall j, In j l1 -> fraction j <= fraction i) ->
  (forall j, In j l2 -> fraction j < fraction i) ->
  inherit_data_subset a
  = Ok (set_data_subset a
          (slice data (bisect_left (map fst data) (exact_mass i - w))
                      (bisect_right (map fst data) (exact_mass i + w)))).
Proof.
  intros data w Hdata Hiso Hl1 Hl2. unfold inherit_data_subset. fold data.
  destruct data as [| p data'] eqn:Ed; [congruence |]. cbn [bind fst snd].
  rewrite Hiso.
  destruct (l1 ++ i :: l2) as [| i0 rest] eqn:El;
    [destruct l1; discriminate |].
  cbn [map max_of bind].
  assert (fold_left (fun m y => if Qlt_bool m y then y else m)
            (map fraction rest) (fraction i0) == fraction i) as Hmx.
  { apply fold_max_eq.
    - change (fraction i0 :: map fraction rest) with (map fraction (i0 :: rest)).
      rewrite <- El. apply in_map, in_or_app. right. left. reflexivity.
    - change (fraction i0 :: map fraction rest) with (map fraction (i0 :: rest)).
      rewrite <- El. intros y Hy. apply in_map_iff in Hy as (j & <- & Hj).
      apply in_app_or in Hj as [Hj | [<- | Hj]].
      + apply Hl1, Hj.
      + lra.
      + apply Qlt_le_weak, Hl2, Hj. }
  rewrite <- El.
  rewrite (find_center_mass_app _ l1 l2 i).
  - cbn [bind].
    change (fst p :: map fst data') with (map fst (p :: data')).
    change (snd p :: map snd data') with (map snd (p :: data')).
    rewrite combine_slices. reflexivity.
  - symmetry. exact Hmx.
  - intros j Hj. rewrite Hmx. apply Hl2, Hj.
Qed.

Lemma inherit_data_subset_last_maximum_witness :
  inherit_data_subset
    (set_isotopes (analyte_at 101 sample_spectrum)
       [mkIsotope 200 (1 # 2); mkIsotope 101 (1 # 2); mkIsotope 100 (1 # 4)])
  = Ok (set_data_subset
          (set_isotopes (analyte_at 101 sample_spectrum)
             [mkIsotope 200 (1 # 2); mkIsotope 101 (1 # 2); mkIsotope 100 (1 # 4)])
          [(100, 10); (101, 20); (102, 30)]).
Proof.
  apply (inherit_data_subset_last_maximum
           (set_isotopes (analyte_at 101 sample_spectrum)
              [mkIsotope 200 (1 # 2); mkIsotope 101 (1 # 2); mkIsotope 100 (1 # 4)])
           [mkIsotope 200 (1 # 2)] [mkIsotope 100 (1 # 4)] (mkIsotope 101 (1 # 2))).
  - discriminate.
  - reflexivity.
  - intros j [<- | []]. unfold Qle. simpl. lia.
  - intros j [<- | []]. unfold Qlt. simpl. lia.
Defined.

(** ** The runs of a name *)

Lemma concat_cons_char (c : ascii) (u : string) (l : list string) :
  String.concat "" (String c u :: l) = String c (String.concat "" (u :: l)).
Proof. destruct l; reflexivity. Qed.

Lemma concat_single_char (c : ascii) (l : list string) :
  String.concat "" (String c "" :: l) = String c (String.concat "" l).
Proof. destruct l; reflexivity. Qed.

Lemma groupby_isalpha_concat (s : string) :
  String.concat "" (groupby_isalpha s) = s.
Proof.
  induction s as [| c s IH]; cbn [groupby_isalpha]; [reflexivity |].
  destruct (groupby_isalpha s) as [| [| d g] gs].
  - simpl in IH. subst. reflexivity.
  - rewrite concat_single_char, IH. reflexivity.
  - destruct (Bool.eqb (isalpha c) (isalpha d)).
    + rewrite concat_cons_char, IH. reflexivity.
    + rewrite concat_single_char, IH. reflexivity.
Qed.

Lemma groupby_isalpha_uniform (s : string) :
  Forall (fun u => u <> ""%string /\ uniform u = true) (groupby_isalpha s).
Proof.
  induction s as [| c s IH]; cbn [groupby_isalpha]; [constructor |].
  assert (String c "" <> ""%string /\ uniform (String c "") = true) as Hc.
  { split; [discriminate |]. unfold uniform. cbn.
    rewrite Bool.eqb_reflx. reflexivity. }
  destruct (groupby_isalpha s) as [| [| d g] gs].
  - constructor; [exact Hc | constructor].
  - constructor; [exact Hc | exact IH].
  - destruct (Bool.eqb (isalpha c) (isalpha d)) eqn:E.
    + inversion IH as [| ? ? [_ Hu] Hgs]; subst.
      constructor; [| exact Hgs]. split; [discriminate |].
      unfold uniform in Hu |- *. cbn [list_ascii_of_string forallb is_letter_run] in Hu |- *.
      apply Bool.eqb_prop in E. rewrite E, !Bool.eqb_reflx.
      rewrite Bool.eqb_reflx in Hu. exact Hu.
    + constructor; [exact Hc | exact IH].
Qed.

Lemma groupby_isalpha_alternating (s : string) : alternating (groupby_isalpha s).
Proof.
  induction s as [| c s IH]; cbn [groupby_isalpha]; [exact I |].
  pose proof (groupby_isalpha_uniform s) as Hu.
  destruct (groupby_isalpha s) as [| [| d g] gs].
  - exact I.
  - inversion Hu as [| ? ? [Hne _] _]; subst. congruence.
  - destruct (Bool.eqb (isalpha c) (isalpha d)) eqn:E.
    + destruct gs as [| v gs]; [exact I |].
      cbn [alternating] in IH |- *. cbn [is_letter_run] in IH |- *.
      apply Bool.eqb_prop in E. rewrite E. exact IH.
    + cbn [alternating is_letter_run]. split; [| exact IH].
      destruct (isalpha c), (isalpha d); try reflexivity; discriminate.
Qed.

(** X9: the runs that [itertools.groupby] cuts a name into give the name
    back when joined; no run is empty; a run consists of letters only or of
    no letter at all; letter runs and other runs take turns. *)
Theorem groupby_isalpha_runs (s : string) :
  String.concat "" (groupby_isalpha s) = s
  /\ Forall (fun u => u <> ""%string /\ uniform u = true) (groupby_isalpha s)
  /\ alternating (groupby_isalpha s).
Proof.
  split; [apply groupby_isalpha_concat |].
  split; [apply groupby_isalpha_uniform | apply groupby_isalpha_alternating].
Qed.

(** ** Digit runs *)










(** ** Attaching the independent modifiers *)

Lemma independent_step_effect (a : Analyte) (modifier : string) (b : Block) :
  has_counters a -> modifier <> "Per"%string ->
  building_blocks a !! modifier = Some b ->
  exists a',
    independent_step a modifier = Ok a'
    /\ has_counters a'
    /\ building_blocks a' = building_blocks a
    /\ mass a' = (fun x => x + block_mass b) <$> mass a
    /\ forall k, attrs a' !! k = (fun v => (v + block_count k b)%Z) <$> attrs a !! k.
Proof.
  intros Ha Hper Hb. pose proof Ha as [Hm Hk].
  destruct (mass a) as [m0 |] eqn:Em; [| congruence].
  assert (exists c, attrs a !! "number_carbons"%string = Some c) as [c Hc].
  { specialize (Hk "number_carbons"%string ltac:(unfold modified_keys; simpl; tauto)).
    destruct (attrs a !! "number_carbons"%string); [eauto | congruence]. }
  assert (exists h, attrs a !! "number_hydrogens"%string = Some h) as [h Hh].
  { specialize (Hk "number_hydrogens"%string ltac:(unfold modified_keys; simpl; tauto)).
    destruct (attrs a !! "number_hydrogens"%string); [eauto | congruence]. }
  assert (exists n, attrs a !! "number_nitrogens"%string = Some n) as [n Hn].
  { specialize (Hk "number_nitrogens"%string ltac:(unfold modified_keys; simpl; tauto)).
    destruct (attrs a !! "number_nitrogens"%string); [eauto | congruence]. }
  assert (exists o, attrs a !! "number_oxygens"%string = Some o) as [o Ho].
  { specialize (Hk "number_oxygens"%string ltac:(unfold modified_keys; simpl; tauto)).
    destruct (attrs a !! "number_oxygens"%string); [eauto | congruence]. }
  assert (exists s, attrs a !! "number_sulfurs"%string = Some s) as [s Hs].
  { specialize (Hk "number_sulfurs"%string ltac:(unfold modified_keys; simpl; tauto)).
    destruct (attrs a !! "number_sulfurs"%string); [eauto | congruence]. }
  exists (setattr (setattr (setattr (setattr (setattr
            (set_mass a (m0 + block_mass b))
            "number_carbons" (c + block_carbons b))
            "number_hydrogens" (h + block_hydrogens b))
            "number_nitrogens" (n + block_nitrogens b))
            "number_oxygens" (o + block_oxygens b))
            "number_sulfurs" (s + block_sulfurs b)).
  split; [| split; [| split; [| split]]].
  - unfold independent_step.
    assert (String.eqb modifier "Per" = false) as -> by (apply String.eqb_neq, Hper).
    cbn [negb]. unfold fadd, iadd, get_mass, getattr, block_of.
    rewrite Em, Hb. cbn [bind]. cbn [attrs building_blocks set_mass setattr].
    rewrite Hc, Hb. cbn [bind]. cbn [attrs building_blocks set_mass setattr].
    rewrite lookup_insert_ne by discriminate. rewrite Hh, Hb. cbn [bind].
    cbn [attrs building_blocks set_mass setattr].
    rewrite !lookup_insert_ne by discriminate. rewrite Hn, Hb. cbn [bind].
    cbn [attrs building_blocks set_mass setattr].
    rewrite !lookup_insert_ne by discriminate. rewrite Ho, Hb. cbn [bind].
    cbn [attrs building_blocks set_mass setattr].
    rewrite !lookup_insert_ne by discriminate. rewrite Hs, Hb. cbn [bind].
    reflexivity.
  - do 5 (apply (proj2 has_counters_stable);
          [unfold modified_keys; cbn [In]; tauto |]).
    apply (proj1 has_counters_stable), Ha.
  - reflexivity.
  - cbn [mass setattr set_mass]. reflexivity.
  - intros k. cbn [attrs setattr set_mass]. unfold block_count.
    destruct (decide (k = "number_sulfurs"%string)) as [-> | N5];
      [rewrite lookup_insert_eq, Hs; reflexivity |].
    rewrite (lookup_insert_ne _ _ k) by congruence.
    destruct (decide (k = "number_oxygens"%string)) as [-> | N4];
      [rewrite lookup_insert_eq, Ho; reflexivity |].
    rewrite (lookup_insert_ne _ _ k) by congruence.
    destruct (decide (k = "number_nitrogens"%string)) as [-> | N3];
      [rewrite lookup_insert_eq, Hn; reflexivity |].
    rewrite (lookup_insert_ne _ _ k) by congruence.
    destruct (decide (k = "number_hydrogens"%string)) as [-> | N2];
      [rewrite lookup_insert_eq, Hh; reflexivity |].
    rewrite (lookup_insert_ne _ _ k) by congruence.
    destruct (decide (k = "number_carbons"%string)) as [-> | N1];
      [rewrite lookup_insert_eq, Hc; reflexivity |].
    rewrite (lookup_insert_ne _ _ k) by congruence.
    apply String.eqb_neq in N1, N2, N3, N4, N5. rewrite N1, N2, N3, N4, N5.
    destruct (attrs a !! k) as [v |]; cbn; [f_equal; lia | reflexivity].
Qed.

Lemma independent_loop_effect (l : list string) (a : Analyte) :
  has_counters a -> ~ In "Per"%string l ->
  (forall m, In m l -> building_blocks a !! m <> None) ->
  exists a',
    for_each independent_step l a = Ok a'
    /\ has_counters a'
    /\ building_blocks a' = building_blocks a
    /\ mass a'
       = (fun x => fold_left (fun y b => y + block_mass b)
                     (blocks_for (building_blocks a) l) x) <$> mass a
    /\ forall k,
         attrs a' !! k
         = (fun v => fold_left (fun n b => (n + block_count k b)%Z)
                       (blocks_for (building_blocks a) l) v) <$> attrs a !! k.
Proof.
  revert a. induction l as [| m l IH]; intros a Ha Hper Hknown.
  - exists a. cbn [for_each blocks_for fold_left].
    split; [reflexivity |]. split; [exact Ha |]. split; [reflexivity |]. split.
    + destruct (mass a); reflexivity.
    + intros k. destruct (attrs a !! k); reflexivity.
  - destruct (building_blocks a !! m) as [b |] eqn:Eb;
      [| elim (Hknown m (or_introl eq_refl) Eb)].
    destruct (independent_step_effect a m b Ha) as (a1 & Hstep & Ha1 & Hb1 & Hm1 & Hk1);
      [intros ->; apply Hper; left; reflexivity | exact Eb |].
    destruct (IH a1 Ha1) as (a' & Hrun & Ha' & Hb' & Hm' & Hk').
    { intros Hin. apply Hper. right. exact Hin. }
    { intros x Hx. rewrite Hb1. apply Hknown. right. exact Hx. }
    exists a'. cbn [for_each]. rewrite Hstep. cbn [bind].
    split; [exact Hrun |]. split; [exact Ha' |].
    split; [congruence |].
    cbn [blocks_for]. rewrite Eb. cbn [fold_left].
    rewrite Hb1 in Hm', Hk'. split.
    + rewrite Hm', Hm1. destruct (mass a); reflexivity.
    + intros k. rewrite Hk', Hk1. destruct (attrs a !! k); reflexivity.
Qed.

Lemma dependent_loop_skips (l : list string) (a : Analyte) :
  ~ In "Per"%string l -> for_each dependent_step l a = Ok a.
Proof.
  induction l as [| m l IH]; intros Hper; [reflexivity |].
  cbn [for_each]. unfold dependent_step at 1.
  assert (String.eqb m "Per" = false) as ->.
  { apply String.eqb_neq. intros ->. apply Hper. left. reflexivity. }
  cbn [bind]. apply IH. intros Hin. apply Hper. right. exact Hin.
Qed.

(** X11: without permethylation, and with every configured modifier and the
    charge carrier in the table, [attach_mass_modifiers] returns; it has
    added the mass and the five elemental counts of each block once, in the
    order of the modifiers with the charge carrier last, and has left every
    other attribute as it was. *)
Theorem attach_mass_modifiers_sum (a : Analyte) :
  let total_modifiers := mass_modifiers (settings a) ++ [charge_carrier (settings a)] in
  let blocks := blocks_for (building_blocks a) total_modifiers in
  has_counters a ->
  ~ In "Per"%string total_modifiers ->
  (forall m, In m total_modifiers -> building_blocks a !! m <> None) ->
  exists a',
    attach_mass_modifiers a = Ok a'
    /\ mass a' = (fun x => fold_left (fun y b => y + block_mass b) blocks x) <$> mass a
    /\ forall k,
         attrs a' !! k
         = (fun v => fold_left (fun n b => (n + block_count k b)%Z) blocks v)
             <$> attrs a !! k.
Proof.
  intros total_modifiers blocks Ha Hper Hknown.
  destruct (independent_loop_effect total_modifiers a Ha Hper Hknown)
    as (a' & Hrun & _ & _ & Hm & Hk).
  exists a'. unfold attach_mass_modifiers. fold total_modifiers.
  rewrite Hrun. cbn [bind].
  rewrite (dependent_loop_skips total_modifiers a' Hper).
  split; [reflexivity |]. split; assumption.
Qed.

(** X12: a configured modifier, or charge carrier, that is not ["Per"] and
    not in the table makes [attach_mass_modifiers] raise [KeyError]. *)
Theorem attach_mass_modifiers_unknown (a : Analyte) (modifier : string) :
  has_counters a ->
  In modifier (mass_modifiers (settings a) ++ [charge_carrier (settings a)]) ->
  modifier <> "Per"%string ->
  building_blocks a !! modifier = None ->
  attach_mass_modifiers a = Err KeyError.
Proof.
  intros Ha Hin Hper Hnone. unfold attach_mass_modifiers.
  assert (for_each independent_step
            (mass_modifiers (settings a) ++ [charge_carrier (settings a)]) a
          = Err KeyError) as ->; [| reflexivity].
  revert Ha Hin Hnone.
  generalize (mass_modifiers (settings a) ++ [charge_carrier (settings a)]).
  intros l. revert a. induction l as [| m l IH]; intros a Ha Hin Hnone;
    [destruct Hin |].
  cbn [for_each].
  destruct (String.eqb m "Per") eqn:Em.
  - unfold independent_step at 1. rewrite Em. cbn [negb bind].
    apply IH; [exact Ha | | exact Hnone].
    destruct Hin as [-> | Hin]; [| exact Hin].
    apply String.eqb_eq in Em. congruence.
  - apply String.eqb_neq in Em.
    destruct (building_blocks a !! m) as [b |] eqn:Eb.
    + destruct (independent_step_effect a m b Ha Em Eb)
        as (a1 & -> & Ha1 & Hb1 & _).
      cbn [bind]. apply IH; [exact Ha1 | | rewrite Hb1; exact Hnone].
      destruct Hin as [-> | Hin]; [congruence | exact Hin].
    + unfold independent_step at 1.
      assert (String.eqb m "Per" = false) as -> by (apply String.eqb_neq, Em).
      cbn [negb]. unfold fadd, get_mass, block_of.
      destruct Ha as [Hm _]. destruct (mass a); [| congruence].
      cbn [bind]. rewrite Eb. reflexivity.
Qed.

Lemma attach_mass_modifiers_sum_witness :
  exists a',
    attach_mass_modifiers (named_analyte "A4") = Ok a'
    /\ mass a' = Some (0 + (100728 # 100000))
    /\ attrs a' !! "number_hydrogens"%string = Some 1%Z.
Proof.
  destruct (attach_mass_modifiers_sum (named_analyte "A4")) as (a' & Hrun & Hm & Hk).
  - split; [discriminate |]. intros k Hk. unfold modified_keys in Hk. cbn [In] in Hk.
    intuition (subst; vm_compute; discriminate).
  - cbn. intros [H | []]. discriminate H.
  - intros m [<- | []]. vm_compute. discriminate.
  - exists a'. split; [exact Hrun |]. split.
    + rewrite Hm. reflexivity.
    + rewrite Hk. vm_compute. reflexivity.
Defined.

Lemma attach_mass_modifiers_unknown_witness :
  attach_mass_modifiers (reset (analyte_at 101 sample_spectrum)) = Err KeyError.
Proof.
  apply (attach_mass_modifiers_unknown (reset (analyte_at 101 sample_spectrum)) "proton").
  - split; [discriminate |]. intros k Hk. unfold modified_keys in Hk. cbn [In] in Hk.
    intuition (subst; vm_compute; discriminate).
  - cbn. left. reflexivity.
  - discriminate.
  - reflexivity.
Defined.

(** ** Probabilities of the enumerated combinations *)




(** ** A call of [calculate_isotopes] that returns *)







(** * Properties of the summary writer *)

Lemma append_assoc (s1 s2 s3 : string) :
  ((s1 ++ s2) ++ s3 = s1 ++ (s2 ++ s3))%string.
Proof.
  induction s1 as [| c s1 IH]; [reflexivity |].
  change (String c ((s1 ++ s2) ++ s3) = String c (s1 ++ (s2 ++ s3)))%string.
  rewrite IH. reflexivity.
Qed.

Lemma append_nil_r (s : string) : (s ++ "")%string = s.
Proof.
  induction s as [| c s IH]; [reflexivity |].
  change (String c (s ++ "") = String c s)%string. rewrite IH. reflexivity.
Qed.

Lemma fold_left_invariant {A B : Type} (P : A -> Prop) (f : A -> B -> A)
    (l : list B) (s : A) :
  (forall s x, P s -> P (f s x)) -> P s -> P (fold_left f l s).
Proof.
  intros Hf. revert s. induction l as [| x l IH]; intros s Hs; cbn [fold_left].
  - exact Hs.
  - apply IH, Hf, Hs.
Qed.

Section Output_properties.
Variable str_float : Q -> string.
Variable str_number : number -> string.
Variable stem : string -> string.

Lemma write_rows_same_object (o s : Output) (l : list ReportedSpectrum) :
  same_object o s ->
  same_object o
    (fold_left (fun o mass_spectrum =>
                  let o := write o (stem (filename mass_spectrum)) in
                  let o :=
                    fold_left (fun o analyte =>
                                 write o (tab ++ str_number (background_subtracted analyte))%string)
                              (analytes mass_spectrum) o in
                  write o newline)
               l s).
Proof.
  apply fold_left_invariant. clear s. intros s x Hs. cbv zeta.
  assert (same_object o
            (fold_left (fun o0 analyte =>
                          write o0 (tab ++ str_number (background_subtracted analyte))%string)
                       (analytes x) (write s (stem (filename x))))) as H.
  { apply fold_left_invariant; [intros s' y Hs'; exact Hs' | exact Hs]. }
  exact H.
Qed.

Lemma write_back_sub_returns (o : Output) (h : string) :
  header o = Some h ->
  snd (write_back_sub_abs_peak_intensity str_number stem o) = None
  /\ same_object o (fst (write_back_sub_abs_peak_intensity str_number stem o)).
Proof.
  intros Hh. unfold write_back_sub_abs_peak_intensity.
  cbn [header write]. rewrite Hh. cbn [fst snd]. split; [reflexivity |].
  pose proof (write_rows_same_object o
                (write (write o "Background Subtracted Intensities") h)
                (mass_spectra o)) as H.
  destruct H as (H1 & H2 & H3); [repeat split |].
  repeat split; assumption.
Qed.

(** X14: which calls of [build_output_file] return.  With the five
    parameters present it raises [NotImplementedError] for absolute
    intensities without background subtraction; otherwise, when relative
    intensities are asked for, it raises as well ([AttributeError] for the
    attribute [background_subraction] when the parameters do not have it);
    otherwise it raises [NotImplementedError] when a quality criterion is
    asked for; and it returns in the remaining case only. *)
Theorem build_output_file_outcome (o : Output) (ai bs ri aq sq : bool) :
  output_parameters o !! "absolute_intensity"%string = Some ai ->
  output_parameters o !! "background_subtraction"%string = Some bs ->
  output_parameters o !! "relative_intensity"%string = Some ri ->
  output_parameters o !! "analyte_quality_criteria"%string = Some aq ->
  output_parameters o !! "spectral_quality_criteria"%string = Some sq ->
  snd (build_output_file str_float str_number stem o)
  = if ai && negb bs then Some NotImplementedError
    else if ri then
      match output_parameters o !! "background_subraction"%string with
      | Some _ => Some NotImplementedError
      | None => Some (OutAttributeError "background_subraction")
      end
    else if aq || sq then Some NotImplementedError
    else None.
Proof.
  intros Hai Hbs Hri Haq Hsq. unfold build_output_file, parameter.
  set (o1 := build_header str_float o).
  assert (output_parameters o1 = output_parameters o) as Hp1 by reflexivity.
  assert (exists h, header o1 = Some h) as [h Hh] by (eexists; reflexivity).
  rewrite Hp1, Hai, Hbs.
  assert (forall o2 : Output,
             output_parameters o2 = output_parameters o ->
             snd (and_then
                    match output_parameters o2 !! "relative_intensity"%string with
                    | Some true =>
                        match output_parameters o2 !! "background_subraction"%string with
                        | Some true => foo o2
                        | Some false => foo o2
                        | None => (o2, Some (OutAttributeError "background_subraction"))
                        end
                    | Some false => (o2, None)
                    | None => (o2, Some (OutAttributeError "relative_intensity"))
                    end
                    (fun o3 =>
                       and_then
                         match output_parameters o3 !! "analyte_quality_criteria"%string with
                         | Some true => foo o3
                         | Some false => (o3, None)
                         | None => (o3, Some (OutAttributeError "analyte_quality_criteria"))
                         end
                         (fun o4 =>
                            match output_parameters o4 !! "spectral_quality_criteria"%string with
                            | Some true => foo o4
                            | Some false => (o4, None)
                            | None => (o4, Some (OutAttributeError "spectral_quality_criteria"))
                            end)))
             = if ri then
                 match output_parameters o !! "background_subraction"%string with
                 | Some _ => Some NotImplementedError
                 | None => Some (OutAttributeError "background_subraction")
                 end
               else if aq || sq then Some NotImplementedError
               else None) as Hrest.
  { intros o2 Hp2. rewrite Hp2, Hri.
    destruct ri.
    - destruct (output_parameters o !! "background_subraction"%string) as [[] |];
        reflexivity.
    - unfold and_then at 1. cbn [fst snd]. rewrite Hp2, Haq.
      destruct aq; [reflexivity |].
      unfold and_then. cbn [fst snd]. rewrite Hp2, Hsq. destruct sq; reflexivity. }
  destruct ai; cbn [andb].
  - destruct bs; cbn [negb].
    + destruct (write_back_sub_returns o1 h Hh) as [Hnone (_ & Hsame & _)].
      unfold and_then at 1. rewrite Hnone.
      apply Hrest. rewrite Hsame. exact Hp1.
    + reflexivity.
  - unfold and_then at 1. cbn [fst snd]. apply Hrest. exact Hp1.
Qed.
End Output_properties.

Lemma build_output_file_outcome_witness :
  snd (build_output_file (fun _ => ""%string) (fun _ => ""%string) (fun s => s)
         relative_only)
  = Some (OutAttributeError "background_subraction").
Proof.
  rewrite (build_output_file_outcome (fun _ => ""%string) (fun _ => ""%string)
             (fun s => s) relative_only false true true false false);
    vm_compute; reflexivity.
Defined.

(** ** The written intensities *)





(** ** The written text *)

Lemma concat_cons_empty (x : string) (l : list string) :
  String.concat "" (x :: l) = (x ++ String.concat "" l)%string.
Proof. destruct l; [symmetry; apply append_nil_r | reflexivity]. Qed.

Lemma write_cells (cell : ReportedAnalyte -> string) (l : list ReportedAnalyte)
    (o : Output) :
  summary_file (fold_left (fun o analyte => write o (cell analyte)) l o)
  = (summary_file o ++ String.concat "" (map cell l))%string.
Proof.
  revert o. induction l as [| a l IH]; intros o; cbn [fold_left map].
  - symmetry. apply append_nil_r.
  - rewrite IH, concat_cons_empty. cbn [summary_file write].
    apply append_assoc.
Qed.

Section Written_text.
Variable str_number : number -> string.
Variable stem : string -> string.

Lemma write_rows (l : list ReportedSpectrum) (o : Output) :
  summary_file
    (fold_left (fun o mass_spectrum =>
                  let o := write o (stem (filename mass_spectrum)) in
                  let o :=
                    fold_left (fun o analyte =>
                                 write o (tab ++ str_number (background_subtracted analyte))%string)
                              (analytes mass_spectrum) o in
                  write o newline)
               l o)
  = (summary_file o
     ++ String.concat "" (map (spectrum_row str_number stem) l))%string.
Proof.
  revert o. induction l as [| s l IH]; intros o; cbn [fold_left map].
  - symmetry. apply append_nil_r.
  - rewrite IH, concat_cons_empty. cbv zeta. cbn [summary_file write].
    rewrite (write_cells (fun analyte => (tab ++ str_number (background_subtracted analyte))%string)).
    cbn [summary_file write]. unfold spectrum_row.
    rewrite !append_assoc. reflexivity.
Qed.

(** X16: [write_back_sub_abs_peak_intensity] needs [self.header]: without
    it the title is written and [AttributeError] is raised.  With it the call
    returns, having appended the title, the header right behind it on the
    same line, one line per spectrum (file stem, then one tab-separated
    intensity per analyte) and an empty line. *)
Theorem write_back_sub_abs_peak_intensity_text (o : Output) :
  match header o with
  | None =>
      snd (write_back_sub_abs_peak_intensity str_number stem o)
      = Some (OutAttributeError "header")
      /\ summary_file (fst (write_back_sub_abs_peak_intensity str_number stem o))
         = (summary_file o ++ "Background Subtracted Intensities")%string
  | Some h =>
      snd (write_back_sub_abs_peak_intensity str_number stem o) = None
      /\ summary_file (fst (write_back_sub_abs_peak_intensity str_number stem o))
         = (summary_file o ++ "Background Subtracted Intensities" ++ h
            ++ String.concat "" (map (spectrum_row str_number stem) (mass_spectra o))
            ++ newline)%string
  end.
Proof.
  unfold write_back_sub_abs_peak_intensity. cbn [header write].
  destruct (header o) as [h |]; cbn [fst snd]; split; try reflexivity.
  cbn [summary_file write mass_spectra]. rewrite write_rows.
  cbn [summary_file write]. rewrite !append_assoc. reflexivity.
Qed.
End Written_text.

Example write_back_sub_abs_peak_intensity_sample :
  summary_file
    (fst (write_back_sub_abs_peak_intensity
            (fun n => match n with Int _ => "0" | Float _ => "60.0" end)%string
            (fun _ => "run1"%string) reported_sample))
  = ("Background Subtracted Intensities" ++ "run1" ++ tab ++ "60.0" ++ tab ++ "0"
     ++ newline ++ newline)%string.
Proof. reflexivity. Qed.

(** ** The header *)

Lemma fold_left_cells {A : Type} (cell : A -> string) (l : list A) (h : string) :
  fold_left (fun h x => (h ++ cell x)%string) l h
  = (h ++ String.concat "" (map cell l))%string.
Proof.
  revert h. induction l as [| x l IH]; intros h; cbn [fold_left map].
  - symmetry. apply append_nil_r.
  - rewrite IH, concat_cons_empty. apply append_assoc.
Qed.

Section Header_text.
Variable str_float : Q -> string.

(** X17: [build_header] looks at the first spectrum only.  The header is a
    line with one tab and name per analyte and a line that starts with
    [Exact m/z] and has one tab and mass per analyte that has an isotope, the
    mass of its first isotope; an analyte without isotopes gets no cell.
    Without any spectrum the header is [Exact m/z] alone, without a line
    end.  Nothing but [self.header] changes. *)
Theorem build_header_text (o : Output) :
  header (build_header str_float o)
  = Some match mass_spectra o with
         | [] => "Exact m/z"%string
         | mass_spectrum :: _ =>
             (String.concat ""
                (map (fun analyte => tab ++ reported_name analyte)
                     (analytes mass_spectrum))
              ++ newline ++ "Exact m/z"
              ++ String.concat ""
                   (map (fun analyte =>
                           match reported_isotopes analyte with
                           | [] => ""
                           | isotope :: _ => tab ++ str_float (measured_exact_mass isotope)
                           end)
                        (analytes mass_spectrum))
              ++ newline)%string
         end
  /\ mass_spectra (build_header str_float o) = mass_spectra o
  /\ output_parameters (build_header str_float o) = output_parameters o
  /\ summary_file (build_header str_float o) = summary_file o.
Proof.
  split; [| repeat split]. unfold build_header. cbn [header set_header]. f_equal.
  destruct (mass_spectra o) as [| s rest]; [reflexivity |].
  assert (forall (l : list ReportedAnalyte) (h : string),
             fold_left (fun h analyte => ((h ++ tab) ++ reported_name analyte)%string) l h
             = fold_left (fun h analyte => (h ++ (tab ++ reported_name analyte))%string) l h)
    as Hnames.
  { intros l. induction l as [| a l IH]; intros h; cbn [fold_left]; [reflexivity |].
    rewrite IH, append_assoc. reflexivity. }
  assert (forall (l : list ReportedAnalyte) (h : string),
             fold_left (fun h analyte =>
                          match reported_isotopes analyte with
                          | [] => h
                          | isotope :: _ =>
                              ((h ++ tab) ++ str_float (measured_exact_mass isotope))%string
                          end) l h
             = fold_left (fun h analyte =>
                            (h ++ match reported_isotopes analyte with
                                  | [] => ""
                                  | isotope :: _ =>
                                      tab ++ str_float (measured_exact_mass isotope)
                                  end)%string) l h)
    as Hmasses.
  { intros l. induction l as [| a l IH]; intros h; cbn [fold_left]; [reflexivity |].
    rewrite IH. destruct (reported_isotopes a).
    - rewrite append_nil_r. reflexivity.
    - rewrite append_assoc. reflexivity. }
  rewrite Hnames, Hmasses, !fold_left_cells.
  rewrite !append_assoc. reflexivity.
Qed.
End Header_text.

(** * Properties of the settings window *)

Lemma boxes_selected (mass_modifiers : list string) (table : BlockTable)
    (boxes : list string * list string) :
  snd (fold_left (fun boxes kb =>
                    if mem (fst kb) mass_modifiers
                    then (fst boxes, snd boxes ++ [human_readable_name (snd kb)])
                    else if (available_for_mass_modifiers (snd kb) =? 1)%Z
                    then (fst boxes ++ [human_readable_name (snd kb)], snd boxes)
                    else boxes)
                 table boxes)
  = snd boxes
    ++ map (fun kb => human_readable_name (snd kb))
         (List.filter (fun kb => mem (fst kb) mass_modifiers) table).
Proof.
  revert boxes. induction table as [| kb table IH]; intros boxes;
    cbn [fold_left List.filter].
  - rewrite app_nil_r. reflexivity.
  - rewrite IH. destruct (mem (fst kb) mass_modifiers); cbn [snd map].
    + rewrite <- app_assoc. reflexivity.
    + destruct (available_for_mass_modifiers (snd kb) =? 1)%Z; reflexivity.
Qed.

Lemma store_inner (m : string) (table : BlockTable) (acc : list string) :
  fold_left (fun acc kb =>
               if String.eqb m (human_readable_name (snd kb))
               then acc ++ [fst kb] else acc)
            table acc
  = acc ++ map fst (List.filter
                      (fun kb => String.eqb m (human_readable_name (snd kb))) table).
Proof.
  revert acc. induction table as [| kb table IH]; intros acc;
    cbn [fold_left List.filter].
  - rewrite app_nil_r. reflexivity.
  - rewrite IH. destruct (String.eqb m (human_readable_name (snd kb))); cbn [map].
    + rewrite <- app_assoc. reflexivity.
    + reflexivity.
Qed.

Lemma store_outer (table : BlockTable) (selected acc : list string) :
  fold_left (fun acc mass_modifier =>
               fold_left (fun acc kb =>
                            if String.eqb mass_modifier (human_readable_name (snd kb))
                            then acc ++ [fst kb] else acc)
                         table acc)
            selected acc
  = acc ++ flat_map (fun m => map fst (List.filter
                                 (fun kb => String.eqb m (human_readable_name (snd kb)))
                                 table))
             selected.
Proof.
  revert acc. induction selected as [| m selected IH]; intros acc;
    cbn [fold_left flat_map].
  - rewrite app_nil_r. reflexivity.
  - rewrite IH, store_inner, <- app_assoc. reflexivity.
Qed.

(** X18: the modifiers that [store_settings] stores are the keys of the
    blocks whose human-readable name is in the list box of the selected
    modifiers: a name that belongs to no block is dropped without notice, and
    a name that several blocks share selects them all. *)
Theorem store_settings_members (table : BlockTable) (w : Window) (k : string) :
  In k (window_mass_modifiers (store_settings table w))
  <-> exists b, In (k, b) table /\ In (human_readable_name b) (selected_modifier w).
Proof.
  unfold store_settings. cbn [window_mass_modifiers].
  rewrite store_outer. cbn [app]. rewrite in_flat_map. split.
  - intros (m & Hm & Hk). apply in_map_iff in Hk as ([k' b] & <- & Hkb).
    apply filter_In in Hkb as [Hkb He]. cbn [fst snd] in *.
    apply String.eqb_eq in He. subst m. exists b. split; assumption.
  - intros (b & Hkb & Hb). exists (human_readable_name b). split; [exact Hb |].
    apply in_map_iff. exists (k, b). split; [reflexivity |].
    apply filter_In. split; [exact Hkb |]. cbn [snd]. apply String.eqb_refl.
Qed.

Lemma unique_name (table : BlockTable) (kb0 : string * BlockInfo) :
  List.NoDup (map (fun kb => human_readable_name (snd kb)) table) ->
  In kb0 table ->
  List.filter (fun kb => String.eqb (human_readable_name (snd kb0))
                                    (human_readable_name (snd kb))) table
  = [kb0].
Proof.
  induction table as [| kb table IH]; intros Hnd Hin; [destruct Hin |].
  cbn [map] in Hnd. inversion Hnd as [| ? ? Hnot Hnd']; subst.
  cbn [List.filter]. destruct Hin as [-> | Hin].
  - rewrite String.eqb_refl. f_equal.
    clear IH Hnd Hnd'. induction table as [| kb table IH]; [reflexivity |].
    cbn [List.filter map] in *.
    destruct (String.eqb (human_readable_name (snd kb0))
                         (human_readable_name (snd kb))) eqn:E.
    + apply String.eqb_eq in E. elim Hnot. left. congruence.
    + apply IH. intros H. apply Hnot. right. exact H.
  - destruct (String.eqb (human_readable_name (snd kb0))
                         (human_readable_name (snd kb))) eqn:E.
    + apply String.eqb_eq in E. elim Hnot. rewrite <- E.
      apply in_map_iff. exists kb0. split; [reflexivity | exact Hin].
    + apply IH; assumption.
Qed.

(** X19: opening the window and storing the settings without touching the
    list boxes keeps the charge carrier and, when no two blocks share a
    human-readable name, replaces the modifiers by the keys of the table
    that were among them, in the order of the table: a modifier that is not
    in the table is lost, and a repeated one is kept once. *)
Theorem store_settings_after_create_window (table : BlockTable)
    (charge_carrier : string) (mass_modifiers : list string) :
  List.NoDup (map (fun kb => human_readable_name (snd kb)) table) ->
  window_mass_modifiers
    (store_settings table (create_window table charge_carrier mass_modifiers))
  = List.filter (fun k => mem k mass_modifiers) (map fst table)
  /\ window_charge_carrier
       (store_settings table (create_window table charge_carrier mass_modifiers))
     = charge_carrier.
Proof.
  intros Hnd. split; [| reflexivity].
  unfold store_settings, create_window.
  cbn [window_mass_modifiers selected_modifier].
  rewrite boxes_selected, store_outer. cbn [snd app].
  assert (forall l : BlockTable,
             incl l table ->
             flat_map (fun m => map fst (List.filter
                                  (fun kb => String.eqb m (human_readable_name (snd kb)))
                                  table))
               (map (fun kb => human_readable_name (snd kb)) l)
             = map fst l) as Hflat.
  { induction l as [| kb l IH]; intros Hincl; [reflexivity |].
    cbn [map flat_map].
    rewrite (unique_name table kb Hnd (Hincl kb (or_introl eq_refl))).
    rewrite IH by (intros x Hx; apply Hincl; right; exact Hx). reflexivity. }
  rewrite Hflat by (intros x Hx; apply filter_In in Hx; tauto).
  clear. induction table as [| kb table IH]; [reflexivity |].
  cbn [List.filter map]. destruct (mem (fst kb) mass_modifiers); cbn [map];
    rewrite IH; reflexivity.
Qed.

Lemma store_settings_after_create_window_witness :
  window_mass_modifiers
    (store_settings sample_table
       (create_window sample_table "proton" ["free"; "unknown"; "Per"; "free"]%string))
  = ["Per"; "free"]%string
  /\ window_charge_carrier
       (store_settings sample_table
          (create_window sample_table "proton" ["free"; "unknown"; "Per"; "free"]%string))
     = "proton"%string.
Proof.
  destruct (store_settings_after_create_window sample_table "proton"
              ["free"; "unknown"; "Per"; "free"]%string) as [H1 H2].
  - repeat constructor; cbn; intuition discriminate.
  - split; [rewrite H1; reflexivity | exact H2].
Defined.

(** ** Moving a modifier between the list boxes *)

Lemma delete_at_perm {A : Type} (dflt : A) (index : nat) (l : list A) :
  (index < length l)%nat ->
  Permutation (delete_at index l ++ [nth index l dflt]) l.
Proof.
  revert index. induction l as [| x l IH]; intros index Hi; cbn [length] in Hi.
  - lia.
  - destruct index as [| i]; cbn [delete_at nth].
    + apply Permutation_sym, Permutation_cons_append.
    + cbn [app]. apply perm_skip, IH. lia.
Qed.

Lemma delete_at_last {A : Type} (l : list A) (x : A) :
  delete_at (length l) (l ++ [x]) = l.
Proof.
  induction l as [| y l IH]; [reflexivity |].
  cbn [length app delete_at]. rewrite IH. reflexivity.
Qed.

Lemma nth_last {A : Type} (dflt : A) (l : list A) (x : A) :
  nth (length l) (l ++ [x]) dflt = x.
Proof. induction l as [| y l IH]; [reflexivity | exact IH]. Qed.

(** X20: selecting an available modifier moves it to the end of the
    selected ones, and selecting it there moves it back, to the end of the
    available ones: the selected list is as before and the available list
    holds the same items as before.  An event with an empty selection makes
    either handler raise [IndexError]. *)
Theorem onselect_moves (w : Window) (index : nat) (others : list nat) :
  (index < length (available_modifier w))%nat ->
  onselect1 [] w = Err IndexError
  /\ onselect2 [] w = Err IndexError
  /\ exists w1 w2,
       onselect1 (index :: others) w = Ok w1
       /\ selected_modifier w1
          = selected_modifier w ++ [nth index (available_modifier w) ""%string]
       /\ available_modifier w1 = delete_at index (available_modifier w)
       /\ onselect2 [length (selected_modifier w)] w1 = Ok w2
       /\ selected_modifier w2 = selected_modifier w
       /\ Permutation (available_modifier w2) (available_modifier w)
       /\ window_mass_modifiers w2 = window_mass_modifiers w.
Proof.
  intros Hi. split; [reflexivity |]. split; [reflexivity |].
  eexists. eexists. split; [reflexivity |].
  cbn [selected_modifier available_modifier onselect2 window_mass_modifiers].
  split; [reflexivity |]. split; [reflexivity |]. split; [reflexivity |].
  cbn [selected_modifier available_modifier window_mass_modifiers].
  split; [apply delete_at_last |]. split; [| reflexivity].
  rewrite nth_last. apply delete_at_perm, Hi.
Qed.

Lemma onselect_moves_witness :
  onselect1 [] (create_window sample_table "proton" []) = Err IndexError
  /\ onselect2 [] (create_window sample_table "proton" []) = Err IndexError
  /\ exists w1 w2,
       onselect1 [0%nat] (create_window sample_table "proton" []) = Ok w1
       /\ selected_modifier w1
          = selected_modifier (create_window sample_table "proton" [])
            ++ [nth 0 (available_modifier (create_window sample_table "proton" []))
                    ""%string]
       /\ available_modifier w1
          = delete_at 0 (available_modifier (create_window sample_table "proton" []))
       /\ onselect2 [length (selected_modifier (create_window sample_table "proton" []))]
            w1 = Ok w2
       /\ selected_modifier w2
          = selected_modifier (create_window sample_table "proton" [])
       /\ Permutation (available_modifier w2)
            (available_modifier (create_window sample_table "proton" []))
       /\ window_mass_modifiers w2
          = window_mass_modifiers (create_window sample_table "proton" []).
Proof.
  apply (onselect_moves (create_window sample_table "proton" []) 0 []).
  cbn. lia.
Defined.
